(** * Session, rate-limit, quota and preference core of the cover-letter assistant

    A shallow embedding of the authorization and usage-governance code of
    [app.py] and [security_utils.py], with the properties of the written
    specification stated and proved (or refuted) over it.

    Conventions of the embedding.
    - A Python [str] is a [string]; for ASCII text the operations below
      ([lower], [split], slicing, [len]) coincide with Python's.  [encode()]
      is the identity (the string is read as its UTF-8 bytes).
    - Python integers are [Z].  A POSIX timestamp ([datetime.timestamp()]) is
      an integer count of microseconds, the resolution of [datetime].
    - A JSON file is [Absent], [Malformed] (reading it raises) or holds a
      document of the shape the code itself writes.
    - The clock is an input: every [datetime.now()] / [date.today()] the code
      performs is a parameter of the function that performs it.
    - A file write is given its outcome as an input; the functions handle
      its failure in their [except] branches. *)

From Stdlib Require Import ZArith Lia Bool Ascii String List.
From stdpp Require Import gmap strings list fin_maps sorting finite.

Local Open Scope string_scope.
Local Open Scope Z_scope.
Local Open Scope list_scope.

(** ** Persistent files *)

Inductive file (A : Type) : Type :=
| Absent
| Malformed
| Doc (d : A).
Arguments Absent {A}.
Arguments Malformed {A}.
Arguments Doc {A} d.

(** Outcome of [with open(path, 'w') as f: json.dump(doc, f)]:
    the document is written, [open] raises and the file is untouched, or the
    dump raises after [open] truncated the file. *)
Inductive write_outcome : Type :=
| Committed
| Refused
| Torn.

Definition write_file {A} (o : write_outcome) (doc : A) (old : file A) : file A :=
  match o with
  | Committed => Doc doc
  | Refused => old
  | Torn => Malformed
  end.

Definition write_raises (o : write_outcome) : bool :=
  match o with Committed => false | _ => true end.

(** The idiom
    [data = {}; if os.path.exists(f): try: data = json.load(..) except: data = {}] *)
Definition load_or_empty {V} (f : file (gmap string V)) : gmap string V :=
  match f with
  | Doc d => d
  | _ => ∅
  end.

(** ** Calendar dates and wall-clock times ([datetime]) *)

Module Calendar.

Record date := mk_date { year : Z; month : Z; day : Z }.

Record datetime := mk_datetime {
  on_date : date;
  hour : Z;
  minute : Z;
  second : Z;
  microsecond : Z
}.

Definition is_leap (y : Z) : bool :=
  (y mod 4 =? 0) && (negb (y mod 100 =? 0) || (y mod 400 =? 0)).

Definition days_in_month (y m : Z) : Z :=
  if m =? 2 then (if is_leap y then 29 else 28)
  else if (m =? 4) || (m =? 6) || (m =? 9) || (m =? 11) then 30
  else 31.

Definition valid_date (d : date) : Prop :=
  1 <= year d <= 9999 /\ 1 <= month d <= 12 /\
  1 <= day d <= days_in_month (year d) (month d).

Definition valid_datetime (t : datetime) : Prop :=
  valid_date (on_date t) /\ 0 <= hour t < 24 /\ 0 <= minute t < 60 /\
  0 <= second t < 60 /\ 0 <= microsecond t < 1000000.

(** [datetime._days_before_year], [_days_before_month], [_ymd2ord]. *)
Definition days_before_year (y : Z) : Z :=
  let y' := y - 1 in y' * 365 + y' / 4 - y' / 100 + y' / 400.

Fixpoint days_before_month_nat (y : Z) (m : nat) : Z :=
  match m with
  | O => 0
  | S m' => days_before_month_nat y m' + days_in_month y (Z.of_nat m)
  end.

Definition days_before_month (y m : Z) : Z :=
  days_before_month_nat y (Z.to_nat (m - 1)).

Definition toordinal (d : date) : Z :=
  days_before_year (year d) + days_before_month (year d) (month d) + day d.

(** [date + timedelta(days=1)]; [None] is the [OverflowError] raised past
    9999-12-31. *)
Definition tomorrow (d : date) : option date :=
  if day d <? days_in_month (year d) (month d)
  then Some (mk_date (year d) (month d) (day d + 1))
  else if month d <? 12 then Some (mk_date (year d) (month d + 1) 1)
  else if year d <? 9999 then Some (mk_date (year d + 1) 1 1)
  else None.

(** Microseconds from 0001-01-01T00:00:00 (midnight before ordinal 1). *)
Definition micros (t : datetime) : Z :=
  (((toordinal (on_date t) * 24 + hour t) * 60 + minute t) * 60 + second t)
  * 1000000 + microsecond t.

(** The [timedelta] [a - b] of two naive datetimes, in microseconds. *)
Definition sub (a b : datetime) : Z := micros a - micros b.

(** *** Text forms *)

Definition digit_char (d : Z) : ascii := ascii_of_nat (48 + Z.to_nat d).

(** ["%0<width>d" % n] for [0 <= n < 10 ^ width]. *)
Fixpoint zero_padded (width : nat) (n : Z) : string :=
  match width with
  | O => ""
  | S w => String (digit_char ((n / 10 ^ Z.of_nat w) mod 10)) (zero_padded w n)
  end.

(** [d.strftime("%Y-%m-%d")] for years of four digits, and
    [date.isoformat()]. *)
Definition strftime_ymd (d : date) : string :=
  zero_padded 4 (year d) +:+ "-" +:+ zero_padded 2 (month d) +:+ "-"
  +:+ zero_padded 2 (day d).

(** [datetime.isoformat()] of a naive datetime. *)
Definition isoformat (t : datetime) : string :=
  strftime_ymd (on_date t) +:+ "T" +:+ zero_padded 2 (hour t) +:+ ":"
  +:+ zero_padded 2 (minute t) +:+ ":" +:+ zero_padded 2 (second t)
  +:+ (if microsecond t =? 0 then "" else "." +:+ zero_padded 6 (microsecond t)).

(** [datetime.combine(d, datetime.min.time())] *)
Definition midnight (d : date) : datetime := mk_datetime d 0 0 0 0.

End Calendar.

(** ** Audit log ([log_security_event]) *)

Inductive detail : Type :=
| DStr (s : string)
| DInt (n : Z)
| DBool (b : bool).

Record audit_event := mk_event {
  ev_timestamp : string;
  event_type : string;
  ev_user_email : string;
  ev_details : list (string * detail)
}.

(** The logger named 'security' is process-wide.  [setup_security_logging]
    attaches one more file handler to it at every call, and every attached
    handler appends the record to the audit file. *)
Record audit_sink := mk_sink {
  handlers : nat;
  audit_lines : list audit_event
}.

Definition setup_security_logging (a : audit_sink) : audit_sink :=
  mk_sink (S (handlers a)) (audit_lines a).

Definition log_security_event (now : Calendar.datetime) (event : string)
    (user_email : string) (details : list (string * detail))
    (a : audit_sink) : audit_sink :=
  let a1 := setup_security_logging a in
  let log_entry := mk_event (Calendar.isoformat now) event user_email details in
  mk_sink (handlers a1) (audit_lines a1 ++ replicate (handlers a1) log_entry).

(** ** The persisted stores and the runtime the code runs on *)

(** Preference profile, as [load_user_preferences] creates it. *)
Record writing_style := mk_writing_style {
  common_phrases : list string;
  sentence_structure_preferences : list string;
  tone_indicators : list string
}.

Record edit_patterns_doc := mk_edit_patterns {
  commonly_removed_words : list string;
  commonly_added_phrases : list string;
  formatting_preferences : list string
}.

Record job_entry := mk_job_entry {
  entry_date : string;
  job_company : string;
  highlights_used : list string;
  session_id : string
}.

Record preferences := mk_preferences {
  user_email : string;
  preferred_highlights : list string;
  writing_style_patterns : writing_style;
  edit_patterns : edit_patterns_doc;
  job_application_history : list job_entry;
  last_updated : string;
  usage_count : Z
}.

(** One record of [invited_users.json]. *)
Record user_info := mk_user_info {
  name : string;
  invited_date : string;
  status : string;
  access_level : string
}.

(** [st.secrets]: each section may be missing. *)
Record secrets := mk_secrets {
  invitation_secret : option string;
  session_timeout_hours : option Z;
  secrets_invited_users : option (list (string * string))
}.

(** Files are keyed by what distinguishes their paths: the action for
    [./rate_limits_<action>.json], the mangled address for a preference
    file. *)
Record world := mk_world {
  daily_usage : file (gmap string (gmap string Z));
  rate_limits : gmap string (file (gmap string (list Z)));
  preference_files : gmap string (file preferences);
  audit : audit_sink
}.

Definition with_daily_usage (f : file (gmap string (gmap string Z))) (w : world) : world :=
  mk_world f (rate_limits w) (preference_files w) (audit w).

Definition with_rate_limits (r : gmap string (file (gmap string (list Z)))) (w : world) : world :=
  mk_world (daily_usage w) r (preference_files w) (audit w).

Definition with_preference_files (p : gmap string (file preferences)) (w : world) : world :=
  mk_world (daily_usage w) (rate_limits w) p (audit w).

Definition with_audit (a : audit_sink) (w : world) : world :=
  mk_world (daily_usage w) (rate_limits w) (preference_files w) a.

(** A file that was never created reads as [Absent]. *)
Definition file_at {A} (files : gmap string (file A)) (key : string) : file A :=
  default Absent (files !! key).

(** ** Rate limiter ([security_utils.check_rate_limit]) *)

Definition check_rate_limit (current_time : Z) (log_now : Calendar.datetime)
    (o : write_outcome) (user : string) (action : string)
    (max_requests time_window_minutes : Z) (w : world) : bool * world :=
  let old := file_at (rate_limits w) action in
  let rate_data := load_or_empty old in
  let user_requests : list Z := default [] (rate_data !! user) in
  let cutoff_time := current_time - time_window_minutes * 60 * 1000000 in
  let user_requests := filter (λ req, cutoff_time < req) user_requests in
  if Z.of_nat (length user_requests) >=? max_requests then
    (false,
     with_audit
       (log_security_event log_now "RATE_LIMIT_EXCEEDED" user
          [("action", DStr action);
           ("request_count", DInt (Z.of_nat (length user_requests)));
           ("max_allowed", DInt max_requests)] (audit w)) w)
  else
    let user_requests := user_requests ++ [current_time] in
    let rate_data := <[user := user_requests]> rate_data in
    (true, with_rate_limits (<[action := write_file o rate_data old]> (rate_limits w)) w).

(** ** Daily quota ([security_utils]) *)

Record daily_status := mk_daily_status {
  allowed : bool;
  remaining : Z;
  used_today : Z;
  reset_time : string;
  daily_limit : Z
}.

(** [now] is the [datetime.now()] that gives the date key, [today] the later
    [date.today()] that gives the reset time.  [None] is the [OverflowError]
    of [date.today() + timedelta(days=1)]. *)
Definition check_daily_cover_letter_limit (now : Calendar.datetime)
    (today : Calendar.date) (user : string) (limit : Z) (w : world)
    : option daily_status * world :=
  let current_date := Calendar.strftime_ymd (Calendar.on_date now) in
  let usage_data := load_or_empty (daily_usage w) in
  let usage_data : gmap string (gmap string Z) :=
    match usage_data !! current_date with
    | None => {[ current_date := ∅ ]}
    | Some _ => {[ current_date := default ∅ (usage_data !! current_date) ]}
    end in
  let today_usage := default 0 (default ∅ (usage_data !! current_date) !! user) in
  let allowed := today_usage <? limit in
  let remaining := Z.max 0 (limit - today_usage) in
  match Calendar.tomorrow today with
  | None => (None, w)
  | Some tomorrow =>
      (Some (mk_daily_status allowed remaining today_usage
               (Calendar.isoformat (Calendar.midnight tomorrow)) limit), w)
  end.

Definition record_cover_letter_generation (now log_now : Calendar.datetime)
    (o : write_outcome) (user : string) (w : world) : bool * world :=
  let current_date := Calendar.strftime_ymd (Calendar.on_date now) in
  let usage_data := load_or_empty (daily_usage w) in
  let usage_data :=
    match usage_data !! current_date with
    | None => <[current_date := ∅]> usage_data
    | Some _ => usage_data
    end in
  let today_map := default ∅ (usage_data !! current_date) in
  let current_count := default 0 (today_map !! user) in
  let usage_data := <[current_date := <[user := current_count + 1]> today_map]> usage_data in
  let w := with_daily_usage (write_file o usage_data (daily_usage w)) w in
  if write_raises o then (false, w)
  else
    (true,
     with_audit
       (log_security_event log_now "COVER_LETTER_GENERATED" user
          [("daily_count", DInt (current_count + 1)); ("date", DStr current_date)]
          (audit w)) w).

(** ** Exceptions *)

Inductive exn : Type :=
| ValueError
| TypeError
| OverflowError.

Inductive result (A : Type) : Type :=
| Return (a : A)
| Raise (e : exn).
Arguments Return {A} a.
Arguments Raise {A} e.

#[global] Instance result_ret : MRet result := λ A a, Return a.
#[global] Instance result_bind : MBind result := λ A B f m,
  match m with
  | Return a => f a
  | Raise e => Raise e
  end.

Definition or_raise {A} (e : exn) (o : option A) : result A :=
  match o with
  | Some a => Return a
  | None => Raise e
  end.

(** ** The Python runtime: library functions the code calls *)

(** What [datetime.fromisoformat] yields: a naive datetime, or an aware one
    (the text carried a UTC offset, here in seconds). *)
Inductive parsed_datetime : Type :=
| Naive (t : Calendar.datetime)
| Aware (t : Calendar.datetime) (utcoffset : Z).

Class Runtime := {
  (** [hmac.new(key, msg, hashlib.sha256).digest()] *)
  hmac_sha256 : string → string → string;
  (** [datetime.fromisoformat]; [None] is its [ValueError]. *)
  fromisoformat : string → option parsed_datetime;
  fromisoformat_isoformat : ∀ t,
    Calendar.valid_datetime t →
    fromisoformat (Calendar.isoformat t) = Some (Naive t);
  (** [list(set(l))]: the distinct elements of [l], in the order the hash
      table yields them. *)
  list_of_set : list string → list string;
  list_of_set_NoDup : ∀ l, NoDup (list_of_set l);
  list_of_set_elem : ∀ l x, x ∈ list_of_set l ↔ x ∈ l
}.

(** ** Text helpers *)

Definition lower_char (c : ascii) : ascii :=
  let n := nat_of_ascii c in
  if ((65 <=? n) && (n <=? 90))%nat then ascii_of_nat (n + 32) else c.

(** [str.lower()] *)
Fixpoint lower (s : string) : string :=
  match s with
  | "" => ""
  | String c s' => String (lower_char c) (lower s')
  end.

(** [s.split(sep, 1)] unpacked into two names: [ValueError] without [sep]. *)
Fixpoint split_once (sep : ascii) (s : string) : option (string * string) :=
  match s with
  | "" => None
  | String c s' =>
      if Ascii.eqb c sep then Some ("", s')
      else match split_once sep s' with
           | Some (l, r) => Some (String c l, r)
           | None => None
           end
  end.

Definition hex_digit (n : nat) : ascii :=
  if (n <? 10)%nat then ascii_of_nat (48 + n) else ascii_of_nat (87 + n).

(** [bytes.hex()] *)
Fixpoint hexlify (raw : string) : string :=
  match raw with
  | "" => ""
  | String c r =>
      let n := nat_of_ascii c in
      String (hex_digit (n / 16)) (String (hex_digit (n mod 16)) (hexlify r))
  end.

Fixpoint is_ascii (s : string) : bool :=
  match s with
  | "" => true
  | String c s' => (nat_of_ascii c <? 128)%nat && is_ascii s'
  end.

(** [hmac.compare_digest] on two [str]: [TypeError] unless both are ASCII. *)
Definition compare_digest (a b : string) : result bool :=
  if is_ascii a && is_ascii b then Return (String.eqb a b) else Raise TypeError.

(** ** Session tokens ([app.create_session_token], [app.verify_session_token]) *)

Definition secret_key (sec : secrets) : string :=
  default "default-secret-key" (invitation_secret sec).

Definition hexdigest `{Runtime} (key msg : string) : string :=
  hexlify (hmac_sha256 key msg).

Definition create_session_token `{Runtime} (sec : secrets)
    (now : Calendar.datetime) (email : string) : string :=
  let timestamp := Calendar.isoformat now in
  let data := email +:+ ":" +:+ timestamp in
  let token := hexdigest (secret_key sec) data in
  token +:+ ":" +:+ timestamp.

(** [datetime.now() - timestamp]: naive minus aware raises. *)
Definition elapsed_since (now : Calendar.datetime) (timestamp : parsed_datetime)
    : result Z :=
  match timestamp with
  | Naive t => Return (Calendar.sub now t)
  | Aware _ _ => Raise TypeError
  end.

(** [timedelta(hours=h)] in microseconds; the day count must stay within
    [timedelta.max]. *)
Definition timedelta_hours (h : Z) : result Z :=
  if Z.abs (h / 24) <=? 999999999 then Return (h * 3600 * 1000000)
  else Raise OverflowError.

(** The body of the [try] block. *)
Definition verify_attempt `{Runtime} (sec : secrets) (now : Calendar.datetime)
    (email token : string) : result bool :=
  '(token_hash, timestamp_str) ← or_raise ValueError (split_once ":" token);
  timestamp ← or_raise ValueError (fromisoformat timestamp_str);
  let timeout_hours := default 24 (session_timeout_hours sec) in
  elapsed ← elapsed_since now timestamp;
  timeout ← timedelta_hours timeout_hours;
  if timeout <? elapsed then Return false
  else
    let data := email +:+ ":" +:+ timestamp_str in
    let expected_token := hexdigest (secret_key sec) data in
    compare_digest token_hash expected_token.

Definition verify_session_token `{Runtime} (sec : secrets)
    (now : Calendar.datetime) (email token : string) : bool :=
  match verify_attempt sec now email token with
  | Return b => b
  | Raise _ => false
  end.

(** ** Invitation registry ([app.load_invited_users], [app.is_user_invited]) *)

(** [invited_users.json]: the ['invited_users'] section may be missing. *)
Record invitation_doc := mk_invitation_doc {
  invited_users : option (gmap string user_info)
}.

Definition secrets_user (user_name : string) : user_info :=
  mk_user_info user_name "2025-01-15" "active" "user".

Definition load_invited_users (sec : secrets) (f : file invitation_doc)
    : gmap string user_info :=
  let invited : gmap string user_info := ∅ in
  let invited :=
    match f with
    | Doc data => default ∅ (invited_users data) ∪ invited
    | _ => invited
    end in
  match secrets_invited_users sec with
  | Some secrets_users =>
      foldl (λ acc '(email, user_name), <[email := secrets_user user_name]> acc)
            invited secrets_users
  | None => invited
  end.

Definition is_user_invited (sec : secrets) (f : file invitation_doc)
    (email : string) : bool :=
  let invited := load_invited_users sec f in
  bool_decide (lower email ∈ lower <$> (map_to_list invited).*1).

(** ** [difflib.SequenceMatcher(None, a, b)] on word lists

    The matcher of the Python standard library, with its defaults: no junk
    predicate ([bjunk] is empty, so its tests are omitted and the two
    junk-extension loops never run) and [autojunk=True]. *)

Module difflib.

Inductive tag : Type :=
| replace
| delete
| insert
| equal.

Definition opcode : Type := tag * nat * nat * nat * nat.
Definition block : Type := nat * nat * nat.

(** [for i, elt in enumerate(b): b2j.setdefault(elt, []).append(i)] *)
Fixpoint index_elements (i : nat) (b : list string)
    (b2j : gmap string (list nat)) : gmap string (list nat) :=
  match b with
  | [] => b2j
  | elt :: b' =>
      index_elements (S i) b' (<[elt := default [] (b2j !! elt) ++ [i]]> b2j)
  end.

(** [__chain_b]: elements that fill more than 1% of a sequence of 200 or
    more are dropped from the index as popular. *)
Definition chain_b (b : list string) : gmap string (list nat) :=
  let b2j := index_elements 0 b ∅ in
  let n := length b in
  if (200 <=? n)%nat then
    let ntest := (n / 100 + 1)%nat in
    filter (λ kv, ¬ (ntest < length kv.2)%nat) b2j
  else b2j.

(** The inner loop of [find_longest_match] for row [i]: [continue] below
    [blo], [break] from [bhi] on. *)
Fixpoint scan_row (i blo bhi : nat) (js : list nat)
    (j2len newj2len : gmap nat nat) (best : block) : gmap nat nat * block :=
  match js with
  | [] => (newj2len, best)
  | j :: js' =>
      if (j <? blo)%nat then scan_row i blo bhi js' j2len newj2len best
      else if (bhi <=? j)%nat then (newj2len, best)
      else
        let k := (match j with
                  | O => 0
                  | S j' => default 0 (j2len !! j')
                  end + 1)%nat in
        let newj2len := <[j := k]> newj2len in
        let best := if (best.2 <? k)%nat then (i + 1 - k, j + 1 - k, k)%nat else best in
        scan_row i blo bhi js' j2len newj2len best
  end.

Definition same_element (x y : option string) : bool :=
  match x, y with
  | Some u, Some v => String.eqb u v
  | _, _ => false
  end.

(** [while besti > alo and bestj > blo and a[besti-1] == b[bestj-1]] *)
Fixpoint extend_left (a b : list string) (alo blo : nat)
    (besti bestj bestsize : nat) : block :=
  match besti, bestj with
  | S i', S j' =>
      if (alo <? besti)%nat && (blo <? bestj)%nat
         && same_element (a !! i') (b !! j')
      then extend_left a b alo blo i' j' (S bestsize)
      else (besti, bestj, bestsize)
  | _, _ => (besti, bestj, bestsize)
  end.

(** [while besti+bestsize < ahi and bestj+bestsize < bhi and
     a[besti+bestsize] == b[bestj+bestsize]]; [room] is
    [ahi - (besti + bestsize)]. *)
Fixpoint extend_right (a b : list string) (bhi : nat) (room : nat)
    (besti bestj bestsize : nat) : block :=
  match room with
  | O => (besti, bestj, bestsize)
  | S room' =>
      if (bestj + bestsize <? bhi)%nat
         && same_element (a !! (besti + bestsize)%nat) (b !! (bestj + bestsize)%nat)
      then extend_right a b bhi room' besti bestj (S bestsize)
      else (besti, bestj, bestsize)
  end.

(** [for i in range(alo, ahi)]: one [scan_row] per row, each starting from
    an empty [newj2len] and handing it on as [j2len]. *)
Definition scan_rows (a : list string) (b2j : gmap string (list nat))
    (blo bhi : nat) (start : gmap nat nat * block) (rows : list nat)
    : gmap nat nat * block :=
  foldl (λ '(j2len, best) i,
           let js := match a !! i with
                     | Some elt => default [] (b2j !! elt)
                     | None => []
                     end in
           scan_row i blo bhi js j2len ∅ best)
        start rows.

Definition find_longest_match (a b : list string) (b2j : gmap string (list nat))
    (alo ahi blo bhi : nat) : block :=
  let '(_, (besti, bestj, bestsize)) :=
    scan_rows a b2j blo bhi (∅, (alo, blo, 0%nat)) (seq alo (ahi - alo)) in
  let '(besti, bestj, bestsize) := extend_left a b alo blo besti bestj bestsize in
  extend_right a b bhi (ahi - (besti + bestsize)) besti bestj bestsize.

(** The work-list loop of [get_matching_blocks]; the list's head is the end
    of Python's [queue].  [None]: the fuel ran out. *)
Fixpoint match_loop (a b : list string) (b2j : gmap string (list nat))
    (fuel : nat) (queue : list (nat * nat * nat * nat))
    (matching_blocks : list block) : option (list block) :=
  match queue with
  | [] => Some matching_blocks
  | (alo, ahi, blo, bhi) :: queue =>
      match fuel with
      | O => None
      | S fuel =>
          let '(i, j, k) := find_longest_match a b b2j alo ahi blo bhi in
          if (k =? 0)%nat then match_loop a b b2j fuel queue matching_blocks
          else
            let matching_blocks := matching_blocks ++ [(i, j, k)] in
            let queue :=
              if (alo <? i)%nat && (blo <? j)%nat
              then (alo, i, blo, j) :: queue else queue in
            let queue :=
              if (i + k <? ahi)%nat && (j + k <? bhi)%nat
              then ((i + k)%nat, ahi, (j + k)%nat, bhi) :: queue else queue in
            match_loop a b b2j fuel queue matching_blocks
      end
  end.

Definition block_le (x y : block) : Prop :=
  let '(i1, j1, k1) := x in
  let '(i2, j2, k2) := y in
  (i1 < i2 ∨ (i1 = i2 ∧ (j1 < j2 ∨ (j1 = j2 ∧ k1 ≤ k2))))%nat.

#[global] Instance block_le_dec : RelDecision block_le.
Proof. intros [[i1 j1] k1] [[i2 j2] k2]. unfold block_le. apply _. Defined.

(** Collapsing adjacent blocks: the [for i2, j2, k2 in matching_blocks] loop. *)
Fixpoint collapse (blocks : list block) (i1 j1 k1 : nat)
    (non_adjacent : list block) : list block :=
  match blocks with
  | [] => if (k1 =? 0)%nat then non_adjacent else non_adjacent ++ [(i1, j1, k1)]
  | (i2, j2, k2) :: blocks =>
      if ((i1 + k1 =? i2) && (j1 + k1 =? j2))%nat
      then collapse blocks i1 j1 (k1 + k2) non_adjacent
      else collapse blocks i2 j2 k2
             (if (k1 =? 0)%nat then non_adjacent else non_adjacent ++ [(i1, j1, k1)])
  end.

Definition get_matching_blocks (a b : list string) : option (list block) :=
  let la := length a in
  let lb := length b in
  matching_blocks ← match_loop a b (chain_b b) (2 * la + 1) [(0, la, 0, lb)%nat] [];
  let matching_blocks := merge_sort block_le matching_blocks in
  Some (collapse matching_blocks 0 0 0 [] ++ [(la, lb, 0%nat)]).

Fixpoint opcodes_from (blocks : list block) (i j : nat) (answer : list opcode)
    : list opcode :=
  match blocks with
  | [] => answer
  | (ai, bj, size) :: blocks =>
      let answer :=
        if (i <? ai)%nat && (j <? bj)%nat then answer ++ [(replace, i, ai, j, bj)]
        else if (i <? ai)%nat then answer ++ [(delete, i, ai, j, bj)]
        else if (j <? bj)%nat then answer ++ [(insert, i, ai, j, bj)]
        else answer in
      let i := (ai + size)%nat in
      let j := (bj + size)%nat in
      let answer :=
        if (size =? 0)%nat then answer else answer ++ [(equal, ai, i, bj, j)] in
      opcodes_from blocks i j answer
  end.

Definition get_opcodes (a b : list string) : option (list opcode) :=
  blocks ← get_matching_blocks a b;
  Some (opcodes_from blocks 0 0 []).

End difflib.

(** What the row scan maintains: no run recorded in [j2len] is longer than
    the rows read so far ([upto - alo]), and the best block lies within
    them. *)
Definition runs_within (alo upto : nat) (j2len : gmap nat nat) : Prop :=
  ∀ j v, j2len !! j = Some v → (v ≤ upto - alo)%nat.

Definition block_within (alo upto : nat) (best : difflib.block) : Prop :=
  (alo ≤ best.1.1 ∧ best.1.1 + best.2 ≤ upto)%nat.

(** The measure that bounds the work-list loop. *)
Definition range_weight (q : nat * nat * nat * nat) : nat :=
  let '(alo, ahi, _, _) := q in 2 * (ahi - alo) + 1.

Definition range_ordered (q : nat * nat * nat * nat) : Prop :=
  let '(alo, ahi, _, _) := q in (alo ≤ ahi)%nat.

(** ** Preference learning ([app.py]) *)

Definition is_space (c : ascii) : bool :=
  let n := nat_of_ascii c in
  (((9 <=? n) && (n <=? 13)) || ((28 <=? n) && (n <=? 32)))%nat.

(** [str.split()]: maximal runs of non-blank characters; [word] is the run
    being read. *)
Fixpoint split_words (s : string) (word : option string) : list string :=
  match s with
  | "" => match word with
          | Some w => [w]
          | None => []
          end
  | String c s' =>
      if is_space c then
        match word with
        | Some w => w :: split_words s' None
        | None => split_words s' None
        end
      else split_words s' (Some (default "" word +:+ String c ""))
  end.

Definition split (s : string) : list string := split_words s None.

(** [" ".join(ws)] *)
Fixpoint join (ws : list string) : string :=
  match ws with
  | [] => ""
  | [w] => w
  | w :: ws' => w +:+ " " +:+ join ws'
  end.

(** [l[i1:i2]] for [0 <= i1], [0 <= i2]. *)
Definition slice {A} (l : list A) (i1 i2 : nat) : list A :=
  take (i2 - i1) (drop i1 l).

(** [l[-n:]] *)
Definition last_n {A} (n : nat) (l : list A) : list A :=
  drop (length l - n) l.

Record replacement := mk_replacement { from : string; to : string }.

Record edit_analysis := mk_edit_analysis {
  removals : list string;
  additions : list string;
  replacements : list replacement
}.

Definition analyze_opcode (original_words edited_words : list string)
    (acc : edit_analysis) (op : difflib.opcode) : edit_analysis :=
  let '(tag, i1, i2, j1, j2) := op in
  match tag with
  | difflib.delete =>
      mk_edit_analysis (removals acc ++ slice original_words i1 i2)
                       (additions acc) (replacements acc)
  | difflib.insert =>
      mk_edit_analysis (removals acc)
                       (additions acc ++ slice edited_words j1 j2)
                       (replacements acc)
  | difflib.replace =>
      mk_edit_analysis (removals acc) (additions acc)
        (replacements acc
         ++ [mk_replacement (join (slice original_words i1 i2))
                            (join (slice edited_words j1 j2))])
  | difflib.equal => acc
  end.

(** [None] only if the matcher's work-list loop ran out of fuel. *)
Definition analyze_user_edits (original_text edited_text : string)
    : option edit_analysis :=
  let original_words := split original_text in
  let edited_words := split edited_text in
  opcodes ← difflib.get_opcodes original_words edited_words;
  Some (foldl (analyze_opcode original_words edited_words)
              (mk_edit_analysis [] [] []) opcodes).

(** [user_email.replace('@', '_at_').replace('.', '_')], the stem of the
    preference file's name. *)
Fixpoint replace_char (c : ascii) (by_s : string) (s : string) : string :=
  match s with
  | "" => ""
  | String x s' =>
      if Ascii.eqb x c then by_s +:+ replace_char c by_s s'
      else String x (replace_char c by_s s')
  end.

Definition preferences_file (email : string) : string :=
  replace_char "." "_" (replace_char "@" "_at_" email).

Definition default_preferences (now : Calendar.datetime) (email : string)
    : preferences :=
  mk_preferences email [] (mk_writing_style [] [] [])
                 (mk_edit_patterns [] [] []) [] (Calendar.isoformat now) 0.

Definition load_user_preferences (now : Calendar.datetime) (email : string)
    (w : world) : preferences :=
  match file_at (preference_files w) (preferences_file email) with
  | Doc p => p
  | _ => default_preferences now email
  end.

Definition with_last_updated (s : string) (p : preferences) : preferences :=
  mk_preferences (user_email p) (preferred_highlights p)
                 (writing_style_patterns p) (edit_patterns p)
                 (job_application_history p) s (usage_count p).

(** Returns the dictionary as it is after the call ([last_updated] is set on
    the caller's object) and the world; a failed write is only logged. *)
Definition save_user_preferences (now : Calendar.datetime) (o : write_outcome)
    (email : string) (p : preferences) (w : world) : preferences * world :=
  let p := with_last_updated (Calendar.isoformat now) p in
  let key := preferences_file email in
  (p, with_preference_files
        (<[key := write_file o p (file_at (preference_files w) key)]>
           (preference_files w)) w).

(** [for highlight in highlights: if highlight not in l: l.append(highlight)] *)
Definition add_highlights (highlights current : list string) : list string :=
  foldl (λ l highlight,
           if bool_decide (highlight ∈ l) then l else l ++ [highlight])
        current highlights.

(** [text[:100] + "..." if len(text) > 100 else text] *)
Definition truncate_job (job_description : string) : string :=
  if (100 <? String.length job_description)%nat
  then String.substring 0 100 job_description +:+ "..."
  else job_description.

(** The clock readings and the session of one call. *)
Record update_env := mk_update_env {
  load_time : Calendar.datetime;
  entry_time : Calendar.datetime;
  save_time : Calendar.datetime;
  session_user_id : string;
  save_outcome : write_outcome
}.

(** [original_letter and edited_letter and original_letter != edited_letter] *)
Definition letters_differ (original_letter edited_letter : string) : bool :=
  negb (String.eqb original_letter "") && negb (String.eqb edited_letter "")
  && negb (String.eqb original_letter edited_letter).

Definition new_job_entry (env : update_env) (highlights : list string)
    (job_description : string) : job_entry :=
  mk_job_entry (Calendar.isoformat (entry_time env))
               (truncate_job job_description) highlights (session_user_id env).

Definition update_user_preferences_with_session_data `{Runtime}
    (env : update_env) (email : string) (highlights : list string)
    (original_letter edited_letter job_description : string) (w : world)
    : option (preferences * world) :=
  let p := load_user_preferences (load_time env) email w in
  let preferred := add_highlights highlights (preferred_highlights p) in
  patterns ←
    (if letters_differ original_letter edited_letter then
       found ← analyze_user_edits original_letter edited_letter;
       let removed := commonly_removed_words (edit_patterns p) ++ removals found in
       let added := commonly_added_phrases (edit_patterns p) ++ additions found in
       Some (mk_edit_patterns (list_of_set (last_n 50 removed))
                              (list_of_set (last_n 50 added))
                              (formatting_preferences (edit_patterns p)))
     else Some (edit_patterns p));
  let job_entry := new_job_entry env highlights job_description in
  let history := last_n 20 (job_application_history p ++ [job_entry]) in
  let p := mk_preferences (user_email p) preferred (writing_style_patterns p)
                          patterns history (last_updated p) (usage_count p + 1) in
  Some (save_user_preferences (save_time env) (save_outcome env) email p w).

(** One call of the merge, with all its inputs. *)
Record update_call := mk_update_call {
  call_env : update_env;
  call_email : string;
  call_highlights : list string;
  call_original : string;
  call_edited : string;
  call_job : string
}.

(** The merges of [calls], one after the other. *)
Fixpoint update_each `{Runtime} (calls : list update_call) (w : world)
    : option world :=
  match calls with
  | [] => Some w
  | c :: calls =>
      '(_, w) ← update_user_preferences_with_session_data (call_env c)
                  (call_email c) (call_highlights c) (call_original c)
                  (call_edited c) (call_job c) w;
      update_each calls w
  end.

(** The size limits of a profile, and of every stored profile. *)
Definition within_caps (p : preferences) : Prop :=
  (length (commonly_removed_words (edit_patterns p)) ≤ 50
   ∧ length (commonly_added_phrases (edit_patterns p)) ≤ 50
   ∧ length (job_application_history p) ≤ 20)%nat.

Definition stored_within_caps (w : world) : Prop :=
  ∀ key p, preference_files w !! key = Some (Doc p) → within_caps p.

(** ** A concrete runtime

    The library functions of [Runtime], as CPython provides them: SHA-256
    (FIPS 180-4) and HMAC (RFC 2104) on byte strings, a reader for the texts
    [isoformat] writes, and a set that yields its elements in order of first
    occurrence. *)

Module SHA256.

Definition word (x : Z) : Z := x mod 2 ^ 32.
Definition add (x y : Z) : Z := word (x + y).
Definition rotr (n x : Z) : Z := Z.lor (Z.shiftr x n) (word (Z.shiftl x (32 - n))).
Definition shr (n x : Z) : Z := Z.shiftr x n.
Definition compl (x : Z) : Z := Z.lxor x (2 ^ 32 - 1).

Definition Ch (x y z : Z) : Z := Z.lxor (Z.land x y) (Z.land (compl x) z).
Definition Maj (x y z : Z) : Z :=
  Z.lxor (Z.lxor (Z.land x y) (Z.land x z)) (Z.land y z).
Definition Sigma0 (x : Z) : Z := Z.lxor (Z.lxor (rotr 2 x) (rotr 13 x)) (rotr 22 x).
Definition Sigma1 (x : Z) : Z := Z.lxor (Z.lxor (rotr 6 x) (rotr 11 x)) (rotr 25 x).
Definition sigma0 (x : Z) : Z := Z.lxor (Z.lxor (rotr 7 x) (rotr 18 x)) (shr 3 x).
Definition sigma1 (x : Z) : Z := Z.lxor (Z.lxor (rotr 17 x) (rotr 19 x)) (shr 10 x).

(** The first [bits] binary digits of the integer [k]-th root of [n]. *)
Fixpoint root_bits (k n : Z) (bits : nat) (x : Z) : Z :=
  match bits with
  | O => x
  | S b =>
      let y := x + 2 ^ Z.of_nat b in
      root_bits k n b (if y ^ k <=? n then y else x)
  end.

(** The first 32 bits of the fractional part of the [k]-th root of [p]. *)
Definition root_fraction (k p : Z) : Z :=
  word (root_bits k (p * 2 ^ (32 * k)) 36 0).

Definition primes : list Z :=
  [2; 3; 5; 7; 11; 13; 17; 19; 23; 29; 31; 37; 41; 43; 47; 53; 59; 61; 67;
   71; 73; 79; 83; 89; 97; 101; 103; 107; 109; 113; 127; 131; 137; 139; 149;
   151; 157; 163; 167; 173; 179; 181; 191; 193; 197; 199; 211; 223; 227;
   229; 233; 239; 241; 251; 257; 263; 269; 271; 277; 281; 283; 293; 307; 311].

(** Round constants: cube roots of the first 64 primes. *)
Definition K : list Z := Eval vm_compute in root_fraction 3 <$> primes.

(** Initial hash value: square roots of the first 8 primes. *)
Definition H0 : list Z := Eval vm_compute in root_fraction 2 <$> take 8 primes.

(** Big-endian bytes of [x], [n] of them. *)
Fixpoint be_bytes (n : nat) (x : Z) : list Z :=
  match n with
  | O => []
  | S n' => (x / 256 ^ Z.of_nat n') mod 256 :: be_bytes n' x
  end.

Fixpoint be_word (bytes : list Z) (acc : Z) : Z :=
  match bytes with
  | [] => acc
  | b :: bytes' => be_word bytes' (acc * 256 + b)
  end.

(** Message, [0x80], zeros up to 56 modulo 64, bit length on 8 bytes. *)
Definition pad (msg : list Z) : list Z :=
  let len := Z.of_nat (length msg) in
  let zeros := Z.to_nat ((55 - len) mod 64) in
  msg ++ [0x80] ++ replicate zeros 0 ++ be_bytes 8 (len * 8).

Fixpoint words_of (n : nat) (bytes : list Z) : list Z :=
  match n with
  | O => []
  | S n' => be_word (take 4 bytes) 0 :: words_of n' (drop 4 bytes)
  end.

(** The message schedule, extended by [n] words. *)
Fixpoint schedule (n : nat) (W : list Z) : list Z :=
  match n with
  | O => W
  | S n' =>
      let t := length W in
      let w i := nth (t - i) W 0 in
      schedule n' (W ++ [add (add (sigma1 (w 2%nat)) (w 7%nat))
                             (add (sigma0 (w 15%nat)) (w 16%nat))])
  end.

Definition state : Type := Z * Z * Z * Z * Z * Z * Z * Z.

Definition round (s : state) (kw : Z * Z) : state :=
  let '(a, b, c, d, e, f, g, h) := s in
  let '(k, w) := kw in
  let T1 := add (add (add h (Sigma1 e)) (add (Ch e f g) k)) w in
  let T2 := add (Sigma0 a) (Maj a b c) in
  (add T1 T2, a, b, c, add d T1, e, f, g).

Definition compress (H : list Z) (block : list Z) : list Z :=
  let W := schedule 48 (words_of 16 block) in
  let h i := nth i H 0 in
  let s0 : state := (h 0, h 1, h 2, h 3, h 4, h 5, h 6, h 7)%nat in
  let '(a, b, c, d, e, f, g, hh) := foldl round s0 (zip K W) in
  zip_with add H [a; b; c; d; e; f; g; hh].

Fixpoint blocks (n : nat) (H : list Z) (bytes : list Z) : list Z :=
  match n with
  | O => H
  | S n' => blocks n' (compress H (take 64 bytes)) (drop 64 bytes)
  end.

Definition digest (msg : list Z) : list Z :=
  let padded := pad msg in
  let H := blocks (length padded / 64) H0 padded in
  H ≫= be_bytes 4.

End SHA256.

Module CPython.

Definition bytes_of (s : string) : list Z :=
  (λ c, Z.of_nat (nat_of_ascii c)) <$> list_ascii_of_string s.

Definition string_of (bytes : list Z) : string :=
  string_of_list_ascii ((λ b, ascii_of_nat (Z.to_nat b)) <$> bytes).

(** RFC 2104 with block size 64. *)
Definition hmac_sha256 (key msg : string) : string :=
  let key := bytes_of key in
  let key := if (64 <? length key)%nat then SHA256.digest key else key in
  let key := key ++ replicate (64 - length key) 0 in
  let inner := SHA256.digest ((Z.lxor 0x36 <$> key) ++ bytes_of msg) in
  string_of (SHA256.digest ((Z.lxor 0x5c <$> key) ++ inner)).

Definition digit_value (c : ascii) : option Z :=
  let n := nat_of_ascii c in
  if ((48 <=? n) && (n <=? 57))%nat then Some (Z.of_nat n - 48) else None.

Fixpoint read_digits (width : nat) (s : string) (acc : Z) : option (Z * string) :=
  match width, s with
  | O, _ => Some (acc, s)
  | S w, String c s' =>
      d ← digit_value c; read_digits w s' (10 * acc + d)
  | S _, "" => None
  end.

Definition expect (c : ascii) (s : string) : option string :=
  match s with
  | String x s' => if Ascii.eqb x c then Some s' else None
  | "" => None
  end.

Definition in_range (lo x hi : Z) : bool := (lo <=? x) && (x <=? hi).

Definition checked (y m d hh mm ss us : Z) : option Calendar.datetime :=
  if in_range 1 y 9999 && in_range 1 m 12
     && in_range 1 d (Calendar.days_in_month y m)
     && in_range 0 hh 23 && in_range 0 mm 59 && in_range 0 ss 59
  then Some (Calendar.mk_datetime (Calendar.mk_date y m d) hh mm ss us)
  else None.

(** [±HH:MM] to the end of the text. *)
Definition read_offset (sign : Z) (s : string) : option Z :=
  '(oh, s) ← read_digits 2 s 0;
  s ← expect ":" s;
  '(om, s) ← read_digits 2 s 0;
  if String.eqb s "" && in_range 0 oh 23 && in_range 0 om 59
  then Some (sign * (oh * 3600 + om * 60)) else None.

Definition read_tail (t : Calendar.datetime) (s : string) : option parsed_datetime :=
  match s with
  | "" => Some (Naive t)
  | String "+" s' => Aware t <$> read_offset 1 s'
  | String "-" s' => Aware t <$> read_offset (-1) s'
  | _ => None
  end.

(** [YYYY-MM-DD?HH:MM:SS[.ffffff][±HH:MM]] *)
Definition fromisoformat (s : string) : option parsed_datetime :=
  '(y, s) ← read_digits 4 s 0;
  s ← expect "-" s;
  '(m, s) ← read_digits 2 s 0;
  s ← expect "-" s;
  '(d, s) ← read_digits 2 s 0;
  s ← match s with String _ s' => Some s' | "" => None end;
  '(hh, s) ← read_digits 2 s 0;
  s ← expect ":" s;
  '(mm, s) ← read_digits 2 s 0;
  s ← expect ":" s;
  '(ss, s) ← read_digits 2 s 0;
  match s with
  | String "." s' =>
      '(us, s) ← read_digits 6 s' 0;
      t ← checked y m d hh mm ss us;
      read_tail t s
  | _ =>
      t ← checked y m d hh mm ss 0;
      read_tail t s
  end.

(** Distinct elements, first occurrences first. *)
Definition list_of_set (l : list string) : list string := remove_dups l.

End CPython.

(** ** The two sources of the roster *)

(** The keys the invitation file contributes: none when it is absent or
    cannot be read. *)
Definition file_keys (f : file invitation_doc) : list string :=
  match f with
  | Doc data => (map_to_list (default ∅ (invited_users data))).*1
  | _ => []
  end.

(** The keys of the [invited_users] table of the deployment secrets. *)
Definition secrets_keys (sec : secrets) : list string :=
  (default [] (secrets_invited_users sec)).*1.

(** ** Runs of calls *)

(** What the rate-limit store holds for [user] under [action]. *)
Definition recorded_requests (w : world) (action user : string) : list Z :=
  default [] (load_or_empty (file_at (rate_limits w) action) !! user).


(** The record a rejected request leaves in the audit log. *)
Definition rate_limit_event (user action : string) (max_requests : Z)
    (log_now : Calendar.datetime) (count : nat) : audit_event :=
  mk_event (Calendar.isoformat log_now) "RATE_LIMIT_EXCEEDED" user
    [("action", DStr action); ("request_count", DInt (Z.of_nat count));
     ("max_allowed", DInt max_requests)].

(** What the daily-usage store holds for [user] under the key [date]. *)
Definition recorded_count (w : world) (date user : string) : Z :=
  default 0 (default ∅ (load_or_empty (daily_usage w) !! date) !! user).

(** [record_cover_letter_generation] called once per element of [calls],
    every write committing. *)
Definition record_each (user : string)
    (calls : list (Calendar.datetime * Calendar.datetime)) (w : world) : world :=
  foldl (λ w '(now, log_now),
           (record_cover_letter_generation now log_now Committed user w).2)
        w calls.

(** ** Further operations of [security_utils.py] *)

(** [s[:n]] for any integer [n]: a negative [n] counts from the end. *)
Fixpoint take_chars (n : nat) (s : string) : string :=
  match n, s with
  | S n', String c s' => String c (take_chars n' s')
  | _, _ => ""
  end.

Definition slice_to (n : Z) (s : string) : string :=
  if 0 <=? n then take_chars (Z.to_nat n) s
  else take_chars (Z.to_nat (Z.of_nat (String.length s) + n)) s.

(** [s.replace(pattern, '')] for a non-empty pattern: left to right, each
    occurrence found is skipped whole; [skip] counts what is left of it. *)
Fixpoint remove_from (pattern : string) (skip : nat) (s : string) : string :=
  match s with
  | "" => ""
  | String c s' =>
      match skip with
      | S k => remove_from pattern k s'
      | O =>
          if String.prefix pattern s
          then remove_from pattern (String.length pattern - 1) s'
          else String c (remove_from pattern 0 s')
      end
  end.

Definition remove_all (pattern : string) (s : string) : string :=
  if String.eqb pattern "" then s else remove_from pattern 0 s.

(** [str.lstrip()], [str.rstrip()], [str.strip()] *)
Fixpoint lstrip (s : string) : string :=
  match s with
  | "" => ""
  | String c s' => if is_space c then lstrip s' else s
  end.

Fixpoint rstrip (s : string) : string :=
  match s with
  | "" => ""
  | String c s' =>
      let r := rstrip s' in
      if is_space c && String.eqb r "" then "" else String c r
  end.

Definition strip (s : string) : string := rstrip (lstrip s).

Definition dangerous_patterns : list string :=
  ["<script"; "</script>"; "javascript:"; "data:"; "vbscript:"; "onload=";
   "onerror="; "onclick="].

Definition sanitize_user_input (user_input : string) (max_length : Z) : string :=
  if String.eqb user_input "" then ""
  else
    let sanitized := slice_to max_length user_input in
    let sanitized :=
      foldl (λ sanitized pattern, remove_all pattern sanitized)
            sanitized dangerous_patterns in
    strip sanitized.








(** [needle in hay] *)
Fixpoint contains (needle hay : string) : bool :=
  String.prefix needle hay
  || match hay with
     | "" => false
     | String _ hay' => contains needle hay'
     end.

Record security_stats := mk_security_stats {
  total_auth_attempts : Z;
  successful_logins : Z;
  failed_logins : Z;
  file_accesses : Z;
  rate_limit_violations : Z
}.

Definition no_events : security_stats := mk_security_stats 0 0 0 0 0.

(** The body of [for line in f]. *)
Definition count_line (stats : security_stats) (line : string) : security_stats :=
  if contains "AUTH_SUCCESS" line then
    mk_security_stats (total_auth_attempts stats + 1) (successful_logins stats + 1)
      (failed_logins stats) (file_accesses stats) (rate_limit_violations stats)
  else if contains "AUTH_FAILURE" line then
    mk_security_stats (total_auth_attempts stats + 1) (successful_logins stats)
      (failed_logins stats + 1) (file_accesses stats) (rate_limit_violations stats)
  else if contains "FILE_ACCESS" line then
    mk_security_stats (total_auth_attempts stats) (successful_logins stats)
      (failed_logins stats) (file_accesses stats + 1) (rate_limit_violations stats)
  else if contains "RATE_LIMIT_EXCEEDED" line then
    mk_security_stats (total_auth_attempts stats) (successful_logins stats)
      (failed_logins stats) (file_accesses stats) (rate_limit_violations stats + 1)
  else stats.

(** [audit_file] is [None] when the audit file does not exist, else the
    lines the loop reads before the file ends or reading raises: the counts
    made up to an exception are kept. *)
Definition get_security_stats (audit_file : option (list string)) : security_stats :=
  match audit_file with
  | None => no_events
  | Some lines => foldl count_line no_events lines
  end.

Record daily_usage_stats := mk_daily_usage_stats {
  total_today : Z;
  users_today : nat;
  usage_by_user : gmap string Z;
  stats_date : option string
}.

Definition get_daily_usage_stats (now : Calendar.datetime) (w : world)
    : daily_usage_stats :=
  let current_date := Calendar.strftime_ymd (Calendar.on_date now) in
  match daily_usage w with
  | Doc usage_data =>
      let today_data := default ∅ (usage_data !! current_date) in
      mk_daily_usage_stats (map_fold (λ _ count total, count + total) 0 today_data)
                           (size today_data) today_data (Some current_date)
  | _ => mk_daily_usage_stats 0 0 ∅ None
  end.

(** The whole body is one [try]: a file that cannot be read makes it return
    [False] before anything is written. *)
Definition reset_user_daily_limit (now log_now : Calendar.datetime)
    (o : write_outcome) (user : string) (w : world) : bool * world :=
  let current_date := Calendar.strftime_ymd (Calendar.on_date now) in
  match daily_usage w with
  | Malformed => (false, w)
  | old =>
      let usage_data := load_or_empty old in
      let usage_data :=
        match usage_data !! current_date with
        | Some today_map =>
            match today_map !! user with
            | Some _ => <[current_date := delete user today_map]> usage_data
            | None => usage_data
            end
        | None => usage_data
        end in
      let w := with_daily_usage (write_file o usage_data old) w in
      if write_raises o then (false, w)
      else
        (true,
         with_audit
           (log_security_event log_now "ADMIN_LIMIT_RESET" user
              [("date", DStr current_date); ("admin_action", DBool true)]
              (audit w)) w)
  end.

(** [log_authentication_attempt], [log_file_access], [log_directory_access] *)
Definition log_authentication_attempt (log_now : Calendar.datetime)
    (email : string) (success : bool) (ip_address : option string)
    (a : audit_sink) : audit_sink :=
  let event := if success then "AUTH_SUCCESS" else "AUTH_FAILURE" in
  let details :=
    match ip_address with
    | Some ip => if String.eqb ip "" then [] else [("ip_address", DStr ip)]
    | None => []
    end in
  log_security_event log_now event email details a.

Definition log_file_access (log_now : Calendar.datetime)
    (email file_path action : string) (a : audit_sink) : audit_sink :=
  log_security_event log_now "FILE_ACCESS" email
    [("file_path", DStr file_path); ("action", DStr action)] a.

Definition log_directory_access (log_now : Calendar.datetime)
    (email directory : string) (a : audit_sink) : audit_sink :=
  log_security_event log_now "DIRECTORY_ACCESS" email
    [("directory", DStr directory)] a.

(** Field-wise sum of two counts. *)
Definition add_stats (s1 s2 : security_stats) : security_stats :=
  mk_security_stats (total_auth_attempts s1 + total_auth_attempts s2)
    (successful_logins s1 + successful_logins s2)
    (failed_logins s1 + failed_logins s2)
    (file_accesses s1 + file_accesses s2)
    (rate_limit_violations s1 + rate_limit_violations s2).

(** [log_security_event] called once per element of [events]. *)
Definition log_each
    (events : list (Calendar.datetime * string * string * list (string * detail)))
    (a : audit_sink) : audit_sink :=
  foldl (λ a '(now, event, email, details),
           log_security_event now event email details a)
        a events.

(** ** Prompt context from the profile
    ([app.generate_personalized_prompt_additions]) *)

(** [sep.join(ws)] *)
Fixpoint join_with (sep : string) (ws : list string) : string :=
  match ws with
  | [] => ""
  | [w] => w
  | w :: ws' => w +:+ sep +:+ join_with sep ws'
  end.

(** The truth value of a list. *)
Definition nonempty {A} (l : list A) : bool :=
  match l with
  | [] => false
  | _ => true
  end.

Definition newline : string := String (ascii_of_nat 10) "".

(** The list [prompt_additions] as it stands before the final join. *)
Definition prompt_additions (p : preferences) : list string :=
  let lines : list string := [] in
  let lines :=
    if nonempty (preferred_highlights p) then
      lines ++ ["The user typically likes to highlight these strengths: "
                +:+ join_with ", " (last_n 5 (preferred_highlights p))]
    else lines in
  let lines :=
    if nonempty (commonly_added_phrases (edit_patterns p)) then
      let common_phrases :=
        last_n 3 (filter (λ phrase, (1 < length (split phrase))%nat)
                         (commonly_added_phrases (edit_patterns p))) in
      if nonempty common_phrases then
        lines ++ ["The user often includes phrases like: "
                  +:+ join_with ", " common_phrases]
      else lines
    else lines in
  let lines :=
    if nonempty (commonly_removed_words (edit_patterns p)) then
      let avoided_words := last_n 5 (commonly_removed_words (edit_patterns p)) in
      lines ++ ["The user typically avoids these words/phrases: "
                +:+ join_with ", " avoided_words]
    else lines in
  lines.

Definition generate_personalized_prompt_additions (now : Calendar.datetime)
    (email : string) (w : world) : string :=
  let preferences := load_user_preferences now email w in
  let lines := prompt_additions preferences in
  if nonempty lines then join_with newline lines else "".

(** Every stored added phrase is at most one word. *)
Definition single_word_phrases (w : world) : Prop :=
  ∀ key p, preference_files w !! key = Some (Doc p) →
    Forall (λ phrase, (length (split phrase) ≤ 1)%nat)
           (commonly_added_phrases (edit_patterns p)).

(** ** Sign-in ([app.py]) *)

(** A pattern [^p1 p2 ... pn$], each piece one character of a class or a
    class repeated [n] times or more; [re.match] finds a match when some
    way of cutting the text fits. *)
Inductive piece : Type :=
| One (cls : ascii → bool)
| AtLeast (n : nat) (cls : ascii → bool).

(** [$]: the end of the text, or just before a newline that ends it. *)
Definition at_end (s : string) : bool :=
  String.eqb s "" || String.eqb s newline.

Fixpoint repeat_then (cls : ascii → bool) (rest : string → bool) (n : nat)
    (s : string) : bool :=
  match n, s with
  | S n', String c s' => cls c && repeat_then cls rest n' s'
  | S _, "" => false
  | O, _ =>
      rest s
      || match s with
         | String c s' => cls c && repeat_then cls rest 0 s'
         | "" => false
         end
  end.

Fixpoint match_pieces (ps : list piece) : string → bool :=
  match ps with
  | [] => at_end
  | One cls :: ps' =>
      λ s, match s with
           | String c s' => cls c && match_pieces ps' s'
           | "" => false
           end
  | AtLeast n cls :: ps' => repeat_then cls (match_pieces ps') n
  end.

(** [a-zA-Z] and [0-9] *)
Definition is_letter (c : ascii) : bool :=
  let n := nat_of_ascii c in
  (((65 <=? n) && (n <=? 90)) || ((97 <=? n) && (n <=? 122)))%nat.

Definition is_digit (c : ascii) : bool :=
  let n := nat_of_ascii c in ((48 <=? n) && (n <=? 57))%nat.

Definition one_of (chars : string) (c : ascii) : bool :=
  existsb (Ascii.eqb c) (list_ascii_of_string chars).

(** [^[a-zA-Z0-9._%+-]+@[a-zA-Z0-9.-]+\.[a-zA-Z]{2,}$] *)
Definition email_pattern : list piece :=
  [AtLeast 1 (λ c, is_letter c || is_digit c || one_of "._%+-" c);
   One (Ascii.eqb "@");
   AtLeast 1 (λ c, is_letter c || is_digit c || one_of ".-" c);
   One (Ascii.eqb ".");
   AtLeast 2 is_letter].

Definition validate_email_format (email : string) : bool :=
  match_pieces email_pattern email.

(** [dict.items()]: the entries of a dictionary in the order it yields
    them (the order of insertion, which a [gmap] does not record). *)
Class DictOrder := {
  items : gmap string user_info → list (string * user_info);
  items_entries : ∀ m, items m ≡ₚ map_to_list m
}.

(** [for user_email, user_info in ...: if ...: return user_info] *)
Fixpoint first_info (email : string) (entries : list (string * user_info))
    : option user_info :=
  match entries with
  | [] => None
  | (user_email, info) :: entries' =>
      if String.eqb (lower user_email) (lower email) then Some info
      else first_info email entries'
  end.

Definition get_user_info `{DictOrder} (sec : secrets) (f : file invitation_doc)
    (email : string) : option user_info :=
  let invited_users := load_invited_users sec f in
  first_info email (items invited_users).

(** The keys of [st.session_state] that sign-in and session set-up use;
    [None] is a key that is not there. *)
Record session_state := mk_session_state {
  authenticated : option bool;
  state_user_email : option string;
  state_user_info : option user_info;
  state_session_token : option string;
  auth_timestamp : option Calendar.datetime;
  user_id : option string;
  session_start : option Calendar.datetime;
  extracted_email : option (option string);
  permanent_user_id : option (option string);
  vector_db_ready : option bool;
  uploaded_file_processed : option bool
}.

(** The truth value of [st.session_state.get(key)] for a text. *)
Definition truthy (v : option string) : bool :=
  match v with
  | Some s => negb (String.eqb s "")
  | None => false
  end.

(** [st.session_state.authenticated = False] *)
Definition unauthenticate (s : session_state) : session_state :=
  mk_session_state (Some false) (state_user_email s) (state_user_info s)
    (state_session_token s) (auth_timestamp s) (user_id s) (session_start s)
    (extracted_email s) (permanent_user_id s) (vector_db_ready s)
    (uploaded_file_processed s).

Definition check_authentication `{Runtime} (sec : secrets)
    (f : file invitation_doc) (now : Calendar.datetime) (s : session_state)
    : bool * session_state :=
  if negb (default false (authenticated s)) then (false, s)
  else
    let email := state_user_email s in
    let token := state_session_token s in
    if negb (truthy email) || negb (truthy token) then (false, s)
    else
      let email := default "" email in
      let token := default "" token in
      if negb (is_user_invited sec f email) then (false, unauthenticate s)
      else if negb (verify_session_token sec now email token) then
        (false, unauthenticate s)
      else (true, s).

(** The five keys of sign-in are deleted; the others stay. *)
Definition logout_user (s : session_state) : session_state :=
  mk_session_state None None None None None (user_id s) (session_start s)
    (extracted_email s) (permanent_user_id s) (vector_db_ready s)
    (uploaded_file_processed s).

(** The five assignments of a granted sign-in. *)
Definition signed_in (email : string) (info : user_info) (token : string)
    (t : Calendar.datetime) (s : session_state) : session_state :=
  mk_session_state (Some true) (Some email) (Some info) (Some token) (Some t)
    (user_id s) (session_start s) (extracted_email s) (permanent_user_id s)
    (vector_db_ready s) (uploaded_file_processed s).

(** How a run of [show_authentication_page] ends: [return False], the
    rerun that [st.rerun()] starts, or the [AttributeError] of
    [user_info.get] on [None]. *)
Inductive page_end : Type :=
| ReturnedFalse
| Rerun
| AttributeErrorRaised.

(** The clock readings of one run and the outcome of the rate limiter's
    write. *)
Record sign_in_env := mk_sign_in_env {
  attempt_time : Z;
  log_time : Calendar.datetime;
  token_time : Calendar.datetime;
  auth_time : Calendar.datetime;
  limit_outcome : write_outcome
}.

(** [email] is the text of the input field, [submit_button] whether the
    form was submitted in this run. *)
Definition show_authentication_page `{Runtime} `{DictOrder} (env : sign_in_env)
    (sec : secrets) (f : file invitation_doc) (email : string)
    (submit_button : bool) (s : session_state) (w : world)
    : page_end * session_state * world :=
  if negb submit_button then (ReturnedFalse, s, w)
  else if String.eqb email "" then
    (ReturnedFalse, s,
     with_audit (log_authentication_attempt (log_time env) "" false None (audit w)) w)
  else if negb (validate_email_format email) then
    (ReturnedFalse, s,
     with_audit (log_authentication_attempt (log_time env) email false None (audit w)) w)
  else
    let '(admitted, w) :=
      check_rate_limit (attempt_time env) (log_time env) (limit_outcome env)
        email "authentication" 5 15 w in
    if negb admitted then (ReturnedFalse, s, w)
    else if negb (is_user_invited sec f email) then
      (ReturnedFalse, s,
       with_audit (log_authentication_attempt (log_time env) email false None (audit w)) w)
    else
      match get_user_info sec f email with
      | None => (AttributeErrorRaised, s, w)
      | Some info =>
          let s := signed_in (lower email) info
                     (create_session_token sec (token_time env) (lower email))
                     (auth_time env) s in
          (Rerun, s,
           with_audit (log_authentication_attempt (log_time env) email true None (audit w)) w)
      end.

(** ** Session set-up and user directories ([app.py]) *)

(** [email.replace('@', '_at_').replace('.', '_').replace('+', '_plus_')] *)
Definition safe_user_id (user_email : string) : string :=
  replace_char "+" "_plus_"
    (replace_char "." "_" (replace_char "@" "_at_" user_email)).

(** [uuid4] is the text of the [uuid.uuid4()] drawn when there is no
    authenticated address, [now] the reading of the clock. *)
Definition initialize_user_session (now : Calendar.datetime) (uuid4 : string)
    (s : session_state) : session_state :=
  let s :=
    if default false (authenticated s) && truthy (state_user_email s) then
      let user_email := default "" (state_user_email s) in
      let safe_user_id := safe_user_id user_email in
      match user_id s with
      | None =>
          mk_session_state (authenticated s) (state_user_email s)
            (state_user_info s) (state_session_token s) (auth_timestamp s)
            (Some safe_user_id) (Some now) (Some (Some user_email))
            (Some (Some user_email)) (vector_db_ready s)
            (uploaded_file_processed s)
      | Some _ => s
      end
    else
      match user_id s with
      | None =>
          mk_session_state (authenticated s) (state_user_email s)
            (state_user_info s) (state_session_token s) (auth_timestamp s)
            (Some (String.substring 0 8 uuid4)) (Some now) (extracted_email s)
            (permanent_user_id s) (vector_db_ready s)
            (uploaded_file_processed s)
      | Some _ => s
      end in
  mk_session_state (authenticated s) (state_user_email s) (state_user_info s)
    (state_session_token s) (auth_timestamp s) (user_id s) (session_start s)
    (Some (default None (extracted_email s)))
    (Some (default None (permanent_user_id s)))
    (Some (default false (vector_db_ready s)))
    (Some (default false (uploaded_file_processed s))).

(** [re.sub(r'[^a-zA-Z0-9_.-]', '_', user_id)] *)
Definition safe_char (c : ascii) : bool :=
  is_letter c || is_digit c || one_of "_.-" c.

Fixpoint sub_unsafe (s : string) : string :=
  match s with
  | "" => ""
  | String c s' => String (if safe_char c then c else "_"%char) (sub_unsafe s')
  end.

Definition backslash : string := String (ascii_of_nat 92) "".

(** The two [ValueError]s of [get_user_directories] and the failure of
    [os.makedirs]. *)
Inductive directories_error : Type :=
| UnauthorizedAccess
| InvalidUserId
| MakedirsFailed.

(** The two directories are created when missing; [makedirs] tells whether
    [os.makedirs] succeeds.  The audit record is written after that. *)
Definition get_user_directories (log_now : Calendar.datetime)
    (makedirs : bool) (s : session_state) (user_id : string) (a : audit_sink)
    : (directories_error + string * string) * audit_sink :=
  if default false (authenticated s)
     && negb (String.eqb user_id
                (safe_user_id (default "" (state_user_email s))))
  then (inl UnauthorizedAccess, a)
  else
    let safe_user_id := sub_unsafe user_id in
    if contains ".." safe_user_id || contains "/" safe_user_id
       || contains backslash safe_user_id
    then (inl InvalidUserId, a)
    else
      let user_persist_dir := "./faiss_db_multiuser" +:+ "/" +:+ "user_" +:+ safe_user_id in
      let user_uploads_dir := "./uploads" +:+ "/" +:+ "user_" +:+ safe_user_id in
      if negb makedirs then (inl MakedirsFailed, a)
      else
        let user_email := default "unknown" (state_user_email s) in
        (inr (user_persist_dir, user_uploads_dir),
         log_directory_access log_now user_email user_persist_dir a).

(** An order for the examples: the one [map_to_list] gives. *)
Definition key_order : DictOrder :=
  {| items := map_to_list; items_entries := λ m, reflexivity _ |}.

(** ** Counting digests *)




(** * Properties *)

(** ** Reading back what [isoformat] writes *)

Section Digits.

Lemma append_String (c : ascii) (s r : string) :
  String c s +:+ r = String c (s +:+ r).
Proof. reflexivity. Qed.

Lemma append_empty_l (r : string) : "" +:+ r = r.
Proof. reflexivity. Qed.

Lemma append_assoc (s1 s2 s3 : string) :
  (s1 +:+ s2) +:+ s3 = s1 +:+ (s2 +:+ s3).
Proof. induction s1 as [| c s1 IH]; [done |]. by rewrite !append_String, IH. Qed.

Lemma digit_value_digit_char (d : Z) :
  0 <= d < 10 → CPython.digit_value (Calendar.digit_char d) = Some d.
Proof.
  intros Hd.
  assert (Hcases : d = 0 ∨ d = 1 ∨ d = 2 ∨ d = 3 ∨ d = 4 ∨ d = 5 ∨ d = 6
                   ∨ d = 7 ∨ d = 8 ∨ d = 9) by lia.
  repeat (destruct Hcases as [-> | Hcases]; [reflexivity |]).
  by subst.
Qed.

Lemma split_low_digits (n : Z) (w : nat) :
  n mod 10 ^ Z.of_nat (S w)
  = (n / 10 ^ Z.of_nat w) mod 10 * 10 ^ Z.of_nat w + n mod 10 ^ Z.of_nat w.
Proof.
  rewrite Nat2Z.inj_succ, Z.pow_succ_r by lia.
  rewrite (Z.mul_comm 10), Z.rem_mul_r by lia. lia.
Qed.

Lemma read_digits_zero_padded (w : nat) (n acc : Z) (rest : string) :
  CPython.read_digits w (Calendar.zero_padded w n +:+ rest) acc
  = Some (acc * 10 ^ Z.of_nat w + n mod 10 ^ Z.of_nat w, rest).
Proof.
  revert acc. induction w as [| w IH]; intros acc.
  - simpl. rewrite Z.mod_1_r. do 2 f_equal. lia.
  - cbn [Calendar.zero_padded]. rewrite append_String. cbn [CPython.read_digits].
    rewrite digit_value_digit_char by (apply Z.mod_pos_bound; lia).
    cbn [mbind option_bind]. rewrite IH, split_low_digits.
    do 2 f_equal. rewrite (Nat2Z.inj_succ w), Z.pow_succ_r by lia. lia.
Qed.

Lemma read_digits_field (w : nat) (n : Z) (rest : string) :
  0 <= n < 10 ^ Z.of_nat w →
  CPython.read_digits w (Calendar.zero_padded w n +:+ rest) 0 = Some (n, rest).
Proof.
  intros Hn. rewrite read_digits_zero_padded, Z.mod_small by done.
  do 2 f_equal.
Qed.

End Digits.

Section ReadingIsoformat.

Lemma append_empty_r (s : string) : s +:+ "" = s.
Proof. induction s as [| c s IH]; [done |]. by rewrite append_String, IH. Qed.

Lemma checked_valid (t : Calendar.datetime) :
  Calendar.valid_datetime t →
  CPython.checked (Calendar.year (Calendar.on_date t))
                  (Calendar.month (Calendar.on_date t))
                  (Calendar.day (Calendar.on_date t))
                  (Calendar.hour t) (Calendar.minute t) (Calendar.second t)
                  (Calendar.microsecond t) = Some t.
Proof.
  destruct t as [[y m d] hh mm ss us].
  intros ((Hy & Hm & Hd) & Hhh & Hmm & Hss & Hus). simpl in *.
  unfold CPython.checked, CPython.in_range.
  repeat match goal with
         | |- context [?a <=? ?b] =>
             (rewrite (proj2 (Z.leb_le a b)) by lia)
         end.
  reflexivity.
Qed.

Lemma days_in_month_le (y m : Z) : Calendar.days_in_month y m <= 31.
Proof.
  unfold Calendar.days_in_month.
  repeat match goal with |- context [if ?b then _ else _] => destruct b end; lia.
Qed.

Local Ltac read_field :=
  rewrite read_digits_field by (simpl; lia); cbn [mbind option_bind].

Local Ltac read_separator :=
  rewrite append_String, append_empty_l;
  cbn [CPython.expect Ascii.eqb Bool.eqb mbind option_bind].

Lemma cpython_fromisoformat_isoformat (t : Calendar.datetime) :
  Calendar.valid_datetime t →
  CPython.fromisoformat (Calendar.isoformat t) = Some (Naive t).
Proof.
  intros Hvalid. pose proof (checked_valid t Hvalid) as Hchecked.
  destruct t as [[y m d] hh mm ss us].
  destruct Hvalid as ((Hy & Hm & Hd) & Hhh & Hmm & Hss & Hus). simpl in *.
  pose proof (days_in_month_le y m).
  unfold CPython.fromisoformat, Calendar.isoformat, Calendar.strftime_ymd.
  cbn [Calendar.on_date Calendar.year Calendar.month Calendar.day Calendar.hour
       Calendar.minute Calendar.second Calendar.microsecond].
  rewrite !append_assoc.
  do 5 (read_field; read_separator).
  destruct (Z.eqb_spec us 0) as [-> | Hne].
  - rewrite append_empty_r.
    rewrite <- (append_empty_r (Calendar.zero_padded 2 ss)).
    read_field. by rewrite Hchecked.
  - read_field. read_separator.
    rewrite <- (append_empty_r (Calendar.zero_padded 6 us)).
    read_field. by rewrite Hchecked.
Qed.

Lemma isoformat_inj (t1 t2 : Calendar.datetime) :
  Calendar.valid_datetime t1 → Calendar.valid_datetime t2 →
  Calendar.isoformat t1 = Calendar.isoformat t2 → t1 = t2.
Proof.
  intros H1 H2 Heq.
  apply cpython_fromisoformat_isoformat in H1, H2.
  rewrite Heq in H1. congruence.
Qed.

Lemma strftime_ymd_inj (d1 d2 : Calendar.date) :
  Calendar.valid_date d1 → Calendar.valid_date d2 →
  Calendar.strftime_ymd d1 = Calendar.strftime_ymd d2 → d1 = d2.
Proof.
  intros H1 H2 Heq.
  assert (Hmid : Calendar.midnight d1 = Calendar.midnight d2).
  { apply isoformat_inj.
    - repeat split; simpl; try lia; apply H1.
    - repeat split; simpl; try lia; apply H2.
    - unfold Calendar.isoformat. simpl Calendar.on_date. by rewrite Heq. }
  by injection Hmid.
Qed.

End ReadingIsoformat.

(** ** The calendar follows the day count *)

Section DayCount.

Lemma days_before_next_month (y m : Z) :
  1 <= m →
  Calendar.days_before_month y (m + 1)
  = Calendar.days_before_month y m + Calendar.days_in_month y m.
Proof.
  intros Hm. unfold Calendar.days_before_month.
  replace (m + 1 - 1) with m by lia.
  replace (Z.to_nat m) with (S (Z.to_nat (m - 1))) by lia.
  cbn [Calendar.days_before_month_nat]. do 2 f_equal. lia.
Qed.

Lemma days_in_year (y : Z) :
  Calendar.days_before_month y 12 + 31
  = 365 + (if Calendar.is_leap y then 1 else 0).
Proof.
  unfold Calendar.days_before_month. simpl Z.to_nat.
  cbn [Calendar.days_before_month_nat]. unfold Calendar.days_in_month. simpl.
  unfold Calendar.days_in_month. simpl.
  destruct (Calendar.is_leap y); lia.
Qed.

Lemma days_before_next_year (y : Z) :
  Calendar.days_before_year (y + 1)
  = Calendar.days_before_year y + 365 + (if Calendar.is_leap y then 1 else 0).
Proof.
  unfold Calendar.days_before_year, Calendar.is_leap. cbv zeta.
  replace (y + 1 - 1) with y by lia.
  destruct (Z.eqb_spec (y mod 4) 0), (Z.eqb_spec (y mod 100) 0),
    (Z.eqb_spec (y mod 400) 0); simpl; Z.div_mod_to_equations; lia.
Qed.

(** [tomorrow] is the date whose ordinal is one more, which is how
    [date + timedelta(days=1)] is computed. *)
Lemma toordinal_tomorrow (d d' : Calendar.date) :
  Calendar.valid_date d → Calendar.tomorrow d = Some d' →
  Calendar.toordinal d' = Calendar.toordinal d + 1.
Proof.
  destruct d as [y m dd].
  unfold Calendar.valid_date, Calendar.tomorrow, Calendar.toordinal.
  simpl. intros (Hy & Hm & Hd) Hnext.
  destruct (Z.ltb_spec dd (Calendar.days_in_month y m)).
  - injection Hnext as <-. simpl. lia.
  - destruct (Z.ltb_spec m 12).
    + injection Hnext as <-. simpl. rewrite days_before_next_month by lia. lia.
    + destruct (Z.ltb_spec y 9999); [| done].
      injection Hnext as <-. simpl.
      assert (m = 12) as -> by lia.
      pose proof (days_in_year y). pose proof (days_before_next_year y).
      assert (Calendar.days_in_month y 12 = 31) by reflexivity.
      change (Calendar.days_before_month (y + 1) 1) with 0. lia.
Qed.

End DayCount.

(** ** Known values of the library functions *)

Section KnownValues.

Example sha256_abc :
  hexlify (CPython.string_of (SHA256.digest (CPython.bytes_of "abc")))
  = "ba7816bf8f01cfea414140de5dae2223b00361a396177a9cb410ff61f20015ad".
Proof. by vm_compute. Qed.

Example hmac_sha256_rfc4231_2 :
  hexlify (CPython.hmac_sha256 "Jefe" "what do ya want for nothing?")
  = "5bdcc146bf60754e6a042426089575c75a003f089d2739839dec58b964ec3843".
Proof. by vm_compute. Qed.

Example toordinal_leap_day :
  Calendar.toordinal (Calendar.mk_date 2024 2 29) = 738945
  ∧ Calendar.toordinal (Calendar.mk_date 9999 12 31) = 3652059.
Proof. by vm_compute. Qed.

Example opcodes_substitution :
  difflib.get_opcodes (split "a b c") (split "a x c")
  = Some [(difflib.equal, 0, 1, 0, 1); (difflib.replace, 1, 2, 1, 2);
          (difflib.equal, 2, 3, 2, 3)]%nat.
Proof. by vm_compute. Qed.

Example opcodes_two_substitutions :
  difflib.get_opcodes
    (split "Thanks for considering my resume for this role")
    (split "Thanks for reviewing my application for this role")
  = Some [(difflib.equal, 0, 2, 0, 2); (difflib.replace, 2, 3, 2, 3);
          (difflib.equal, 3, 4, 3, 4); (difflib.replace, 4, 5, 4, 5);
          (difflib.equal, 5, 8, 5, 8)]%nat.
Proof. by vm_compute. Qed.

Example opcodes_deletions :
  difflib.get_opcodes (split "a b a b a") (split "b a b")
  = Some [(difflib.delete, 0, 1, 0, 0); (difflib.equal, 1, 4, 0, 3);
          (difflib.delete, 4, 5, 3, 3)]%nat.
Proof. by vm_compute. Qed.

End KnownValues.

(** The concrete runtime satisfies the laws of [Runtime]. *)
Definition cpython : Runtime := {|
  hmac_sha256 := CPython.hmac_sha256;
  fromisoformat := CPython.fromisoformat;
  fromisoformat_isoformat := cpython_fromisoformat_isoformat;
  list_of_set := CPython.list_of_set;
  list_of_set_NoDup := NoDup_remove_dups;
  list_of_set_elem := λ l x, elem_of_remove_dups l x
|}.

(** ** Daily quota *)

Section DailyQuota.

Implicit Types (w : world) (user date : string) (now : Calendar.datetime).

Lemma tomorrow_valid (d d' : Calendar.date) :
  Calendar.valid_date d → Calendar.tomorrow d = Some d' →
  Calendar.valid_date d' ∧ d' ≠ d.
Proof.
  destruct d as [y m dd]. unfold Calendar.valid_date, Calendar.tomorrow. simpl.
  intros (Hy & Hm & Hd) Hnext.
  assert (Hdim : ∀ y' m', 28 <= Calendar.days_in_month y' m').
  { intros y' m'. unfold Calendar.days_in_month.
    repeat match goal with |- context [if ?b then _ else _] => destruct b end; lia. }
  destruct (Z.ltb_spec dd (Calendar.days_in_month y m)).
  - injection Hnext as <-. simpl. split; [lia | intros [=]; lia].
  - destruct (Z.ltb_spec m 12).
    + injection Hnext as <-. simpl. pose proof (Hdim y (m + 1)).
      split; [lia | intros [=]; lia].
    + destruct (Z.ltb_spec y 9999); [| done].
      injection Hnext as <-. simpl. pose proof (Hdim (y + 1) 1).
      split; [lia | intros [=]; lia].
Qed.

Lemma check_reads_recorded_count now today next user limit w :
  Calendar.tomorrow today = Some next →
  let used :=
    recorded_count w (Calendar.strftime_ymd (Calendar.on_date now)) user in
  check_daily_cover_letter_limit now today user limit w
  = (Some (mk_daily_status (used <? limit) (Z.max 0 (limit - used)) used
             (Calendar.isoformat (Calendar.midnight next)) limit), w).
Proof.
  intros Hnext used. subst used.
  unfold check_daily_cover_letter_limit, recorded_count.
  rewrite Hnext.
  destruct (load_or_empty (daily_usage w) !! _) as [today_map |] eqn:Hlookup;
    rewrite lookup_singleton_eq; simpl; [done |].
  by rewrite lookup_empty.
Qed.

Lemma record_committed now log_now user w :
  let date := Calendar.strftime_ymd (Calendar.on_date now) in
  let w' := (record_cover_letter_generation now log_now Committed user w).2 in
  (record_cover_letter_generation now log_now Committed user w).1 = true
  ∧ recorded_count w' date user = recorded_count w date user + 1
  ∧ (∀ date' user', (date', user') ≠ (date, user) →
       recorded_count w' date' user' = recorded_count w date' user').
Proof.
  unfold record_cover_letter_generation, recorded_count. simpl.
  set (date := Calendar.strftime_ymd _).
  set (usage := load_or_empty (daily_usage w)).
  split; [done |].
  destruct (usage !! date) as [today_map |] eqn:Hlookup; simpl.
  - rewrite Hlookup. simpl. split.
    + by repeat (rewrite lookup_insert_eq; simpl).
    + intros date' user' Hne.
      destruct (decide (date' = date)) as [-> | Hdate].
      * rewrite lookup_insert_eq, Hlookup. simpl.
        rewrite lookup_insert_ne; [done | congruence].
      * by rewrite lookup_insert_ne.
  - rewrite lookup_insert_eq. simpl. split.
    + repeat (rewrite lookup_insert_eq; simpl). by rewrite lookup_empty.
    + intros date' user' Hne.
      destruct (decide (date' = date)) as [-> | Hdate].
      * repeat (rewrite lookup_insert_eq; simpl). rewrite Hlookup. simpl.
        rewrite lookup_insert_ne; [done | congruence].
      * by rewrite !lookup_insert_ne.
Qed.

Lemma record_each_cons user now log_now calls w :
  record_each user ((now, log_now) :: calls) w
  = record_each user calls
      (record_cover_letter_generation now log_now Committed user w).2.
Proof. reflexivity. Qed.

Lemma record_each_count user d calls w :
  Forall (λ c, Calendar.on_date c.1 = d) calls →
  recorded_count (record_each user calls w) (Calendar.strftime_ymd d) user
  = recorded_count w (Calendar.strftime_ymd d) user + Z.of_nat (length calls)
  ∧ (∀ date', date' ≠ Calendar.strftime_ymd d →
       recorded_count (record_each user calls w) date' user
       = recorded_count w date' user).
Proof.
  intros Hcalls. revert w.
  induction Hcalls as [| [now log_now] calls Hd _ IH]; intros w.
  - simpl. split; [lia | done].
  - simpl in Hd. rewrite record_each_cons.
    destruct (record_committed now log_now user w) as (_ & Hsame & Hother).
    rewrite Hd in Hsame, Hother.
    destruct (IH (record_cover_letter_generation now log_now Committed user w).2)
      as [IHsame IHother].
    split.
    + rewrite IHsame, Hsame. rewrite length_cons. lia.
    + intros date' Hne. rewrite IHother by done. apply Hother. congruence.
Qed.

End DailyQuota.

Section DailyQuotaClaims.

(** C4: after K recorded generations for one identity on one calendar date
    (from a store holding no count for it), the status read on that date
    reports [used_today = K] and [remaining = max 0 (limit - K)]; read on
    the following date it reports [used_today = 0], whatever K was. *)
Theorem daily_status_counts_records
    (user : string) (limit : Z) (w : world) (d d' : Calendar.date)
    (calls : list (Calendar.datetime * Calendar.datetime))
    (now now' : Calendar.datetime) (today today' next next' : Calendar.date) :
  Calendar.valid_date d →
  Calendar.tomorrow d = Some d' →
  Forall (λ c, Calendar.on_date c.1 = d) calls →
  recorded_count w (Calendar.strftime_ymd d) user = 0 →
  recorded_count w (Calendar.strftime_ymd d') user = 0 →
  Calendar.on_date now = d →
  Calendar.on_date now' = d' →
  Calendar.tomorrow today = Some next →
  Calendar.tomorrow today' = Some next' →
  let K := Z.of_nat (length calls) in
  let w' := record_each user calls w in
  (check_daily_cover_letter_limit now today user limit w').1
  = Some (mk_daily_status (K <? limit) (Z.max 0 (limit - K)) K
            (Calendar.isoformat (Calendar.midnight next)) limit)
  ∧ (check_daily_cover_letter_limit now' today' user limit w').1
    = Some (mk_daily_status (0 <? limit) (Z.max 0 (limit - 0)) 0
              (Calendar.isoformat (Calendar.midnight next')) limit).
Proof.
  intros Hvalid Hnext Hcalls Hfresh Hfresh' Hnow Hnow' Htoday Htoday' K w'.
  destruct (tomorrow_valid d d' Hvalid Hnext) as [Hvalid' Hne].
  destruct (record_each_count user d calls w Hcalls) as [Hsame Hother].
  rewrite (check_reads_recorded_count _ _ next) by done.
  rewrite (check_reads_recorded_count _ _ next') by done.
  rewrite Hnow, Hnow'. cbn [fst]. subst w'.
  rewrite Hsame, Hfresh, Z.add_0_l.
  rewrite Hother, Hfresh'; [done |].
  intros Heq. apply Hne. by apply strftime_ymd_inj.
Qed.

Lemma daily_status_counts_records_witness :
  let day := Calendar.mk_date 2025 1 15 in
  let at_ h := Calendar.mk_datetime day h 0 0 0 in
  let w := mk_world Absent ∅ ∅ (mk_sink 0 []) in
  let w' := record_each "a@x.com" [(at_ 9, at_ 9)] w in
  (check_daily_cover_letter_limit (at_ 10) day "a@x.com" 5 w').1
  = Some (mk_daily_status true 4 1 "2025-01-16T00:00:00" 5)
  ∧ (check_daily_cover_letter_limit
       (Calendar.mk_datetime (Calendar.mk_date 2025 1 16) 8 0 0 0)
       (Calendar.mk_date 2025 1 16) "a@x.com" 5 w').1
    = Some (mk_daily_status true 5 0 "2025-01-17T00:00:00" 5).
Proof.
  intros day at_ w w'.
  apply (daily_status_counts_records "a@x.com" 5 w day
           (Calendar.mk_date 2025 1 16) [(at_ 9, at_ 9)] (at_ 10)
           (Calendar.mk_datetime (Calendar.mk_date 2025 1 16) 8 0 0 0)
           day (Calendar.mk_date 2025 1 16)
           (Calendar.mk_date 2025 1 16) (Calendar.mk_date 2025 1 17)).
  - repeat split; by vm_compute.
  - reflexivity.
  - repeat constructor.
  - reflexivity.
  - reflexivity.
  - reflexivity.
  - reflexivity.
  - reflexivity.
  - reflexivity.
Defined.

(** C5 as stated fails: after a status read on 2025-01-15 the stored
    document still holds the key of 2025-01-14. *)
Lemma status_read_keeps_prior_dates :
  let now := Calendar.mk_datetime (Calendar.mk_date 2025 1 15) 9 0 0 0 in
  let stored : gmap string (gmap string Z) :=
    {[ "2025-01-14" := {[ "a@x.com" := 3 ]} ]} in
  let w := mk_world (Doc stored) ∅ ∅ (mk_sink 0 []) in
  let w' := (check_daily_cover_letter_limit now (Calendar.on_date now)
               "a@x.com" 5 w).2 in
  Calendar.strftime_ymd (Calendar.on_date now) = "2025-01-15"
  ∧ daily_usage w' = Doc stored
  ∧ stored !! "2025-01-14" = Some {[ "a@x.com" := 3 ]}.
Proof. repeat split. Qed.

(** C5, amended: the status read restricts only its own view of the usage
    document to the current date's key (its result depends on no other
    key), and it never writes: the stored document is left as it was. *)
Theorem status_read_leaves_store (now : Calendar.datetime)
    (today : Calendar.date) (user : string) (limit : Z) (w : world) :
  (check_daily_cover_letter_limit now today user limit w).2 = w
  ∧ ∀ w2 : world,
      load_or_empty (daily_usage w2) !! Calendar.strftime_ymd (Calendar.on_date now)
      = load_or_empty (daily_usage w) !! Calendar.strftime_ymd (Calendar.on_date now) →
      (check_daily_cover_letter_limit now today user limit w2).1
      = (check_daily_cover_letter_limit now today user limit w).1.
Proof.
  split.
  - unfold check_daily_cover_letter_limit.
    by destruct (Calendar.tomorrow today).
  - intros w2 Hsame. unfold check_daily_cover_letter_limit.
    rewrite Hsame. by destruct (Calendar.tomorrow today).
Qed.

Lemma status_read_leaves_store_witness :
  let now := Calendar.mk_datetime (Calendar.mk_date 2025 1 15) 9 0 0 0 in
  let today_only : gmap string (gmap string Z) :=
    {[ "2025-01-15" := {[ "a@x.com" := 2 ]} ]} in
  let with_yesterday : gmap string (gmap string Z) :=
    <[ "2025-01-14" := {[ "a@x.com" := 5 ]} ]> today_only in
  let w := mk_world (Doc today_only) ∅ ∅ (mk_sink 0 []) in
  let w2 := mk_world (Doc with_yesterday) ∅ ∅ (mk_sink 0 []) in
  (check_daily_cover_letter_limit now (Calendar.on_date now) "a@x.com" 5 w2).1
  = (check_daily_cover_letter_limit now (Calendar.on_date now) "a@x.com" 5 w).1.
Proof.
  intros now today_only with_yesterday w w2.
  apply (proj2 (status_read_leaves_store now (Calendar.on_date now) "a@x.com" 5 w)).
  reflexivity.
Defined.

End DailyQuotaClaims.

(** ** Rate limiter *)

Section Filtering.



End Filtering.

Section RateLimiter.

Variables (user action : string) (max_requests minutes : Z).

Let window : Z := minutes * 60 * 1000000.

Lemma check_rate_limit_unfold (t : Z) log_now o w :
  let pruned := filter (λ req, t - window < req) (recorded_requests w action user) in
  check_rate_limit t log_now o user action max_requests minutes w
  = if Z.of_nat (length pruned) >=? max_requests
    then (false,
          with_audit
            (mk_sink (S (handlers (audit w)))
               (audit_lines (audit w)
                ++ replicate (S (handlers (audit w)))
                     (rate_limit_event user action max_requests log_now (length pruned)))) w)
    else (true,
          with_rate_limits
            (<[action :=
                 write_file o
                   (<[user := pruned ++ [t]]>
                      (load_or_empty (file_at (rate_limits w) action)))
                   (file_at (rate_limits w) action)]> (rate_limits w)) w).
Proof. reflexivity. Qed.

Lemma recorded_after_commit w (requests : list Z) :
  recorded_requests
    (with_rate_limits
       (<[action :=
            write_file Committed
              (<[user := requests]>
                 (load_or_empty (file_at (rate_limits w) action)))
              (file_at (rate_limits w) action)]> (rate_limits w)) w)
    action user = requests.
Proof.
  unfold recorded_requests, file_at. simpl.
  rewrite lookup_insert_eq. simpl. by rewrite lookup_insert_eq.
Qed.




End RateLimiter.

Section RateLimiterClaims.



End RateLimiterClaims.

(** ** Session tokens *)

Section HexDigests.

Lemma hex_digit_facts (n : nat) :
  (n < 16)%nat →
  Ascii.eqb (hex_digit n) ":" = false
  ∧ (nat_of_ascii (hex_digit n) <? 128)%nat = true.
Proof.
  intros Hn. do 16 (destruct n as [| n]; [by vm_compute |]). lia.
Qed.

Lemma hex_digit_inj (n m : nat) :
  (n < 16)%nat → (m < 16)%nat → hex_digit n = hex_digit m → n = m.
Proof.
  intros Hn Hm.
  do 16 (destruct n as [| n];
         [do 16 (destruct m as [| m]; [by vm_compute |]); lia |]).
  lia.
Qed.

Lemma nibbles (c : ascii) :
  (nat_of_ascii c / 16 < 16)%nat ∧ (nat_of_ascii c mod 16 < 16)%nat.
Proof.
  pose proof (nat_ascii_bounded c). split.
  - apply Nat.Div0.div_lt_upper_bound. lia.
  - apply Nat.mod_upper_bound. lia.
Qed.

Lemma split_once_String (sep c : ascii) (s : string) :
  split_once sep (String c s)
  = if Ascii.eqb c sep then Some ("", s)
    else match split_once sep s with
         | Some (l, r) => Some (String c l, r)
         | None => None
         end.
Proof. reflexivity. Qed.

Lemma split_once_hexlify (raw rest : string) :
  split_once ":" (hexlify raw +:+ String ":" rest) = Some (hexlify raw, rest).
Proof.
  induction raw as [| c raw IH].
  - reflexivity.
  - destruct (nibbles c) as [Hhi Hlo].
    cbn [hexlify]. rewrite 2!append_String, 2!split_once_String.
    rewrite (proj1 (hex_digit_facts _ Hhi)), (proj1 (hex_digit_facts _ Hlo)).
    by rewrite IH.
Qed.

Lemma is_ascii_hexlify (raw : string) : is_ascii (hexlify raw) = true.
Proof.
  induction raw as [| c raw IH]; [done |].
  destruct (nibbles c) as [Hhi Hlo]. cbn [hexlify is_ascii].
  by rewrite (proj2 (hex_digit_facts _ Hhi)), (proj2 (hex_digit_facts _ Hlo)), IH.
Qed.

Lemma hexlify_inj (raw1 raw2 : string) :
  hexlify raw1 = hexlify raw2 → raw1 = raw2.
Proof.
  revert raw2. induction raw1 as [| c1 raw1 IH]; intros [| c2 raw2]; try done.
  cbn [hexlify]. intros Heq.
  destruct (nibbles c1) as [? ?], (nibbles c2) as [? ?].
  assert (Hhi : hex_digit (nat_of_ascii c1 / 16) = hex_digit (nat_of_ascii c2 / 16))
    by congruence.
  assert (Hlo : hex_digit (nat_of_ascii c1 mod 16) = hex_digit (nat_of_ascii c2 mod 16))
    by congruence.
  assert (Hrest : hexlify raw1 = hexlify raw2) by congruence.
  apply hex_digit_inj in Hhi, Hlo; try done.
  f_equal; [| by apply IH].
  rewrite <- (ascii_nat_embedding c1), <- (ascii_nat_embedding c2). f_equal.
  pose proof (Nat.div_mod_eq (nat_of_ascii c1) 16).
  pose proof (Nat.div_mod_eq (nat_of_ascii c2) 16).
  congruence.
Qed.

End HexDigests.

Section SessionTokens.

Context `{Runtime}.

Implicit Types (sec : secrets) (now : Calendar.datetime) (email token : string).

(** The steps of [verify_session_token], one equation each. *)
Lemma verify_unparsed sec now email token :
  split_once ":" token = None → verify_session_token sec now email token = false.
Proof. unfold verify_session_token, verify_attempt. by intros ->. Qed.

Lemma verify_parsed sec now email token token_hash timestamp_str :
  split_once ":" token = Some (token_hash, timestamp_str) →
  verify_session_token sec now email token
  = match fromisoformat timestamp_str with
    | Some (Naive t) =>
        match timedelta_hours (default 24 (session_timeout_hours sec)) with
        | Return timeout =>
            if timeout <? Calendar.sub now t then false
            else
              is_ascii token_hash
              && is_ascii (hexdigest (secret_key sec) (email +:+ ":" +:+ timestamp_str))
              && String.eqb token_hash
                   (hexdigest (secret_key sec) (email +:+ ":" +:+ timestamp_str))
        | Raise _ => false
        end
    | _ => false
    end.
Proof.
  unfold verify_session_token, verify_attempt. intros ->. simpl.
  destruct (fromisoformat timestamp_str) as [[t | t off] |]; simpl; try done.
  destruct (timedelta_hours _) as [timeout | e]; simpl; [| done].
  destruct (timeout <? Calendar.sub now t); [done |].
  unfold compare_digest.
  by destruct (is_ascii token_hash && is_ascii _).
Qed.

Lemma split_issued sec now email :
  split_once ":" (create_session_token sec now email)
  = Some (hexdigest (secret_key sec) (email +:+ ":" +:+ Calendar.isoformat now),
          Calendar.isoformat now).
Proof. apply split_once_hexlify. Qed.

(** A credential made for [A], verified for [B]: it is accepted when it has
    not expired and the keyed hash gives both messages one digest. *)
Lemma verify_issued_for sec now (A B : string) (issued : Calendar.datetime) :
  Calendar.valid_datetime issued →
  Z.abs (default 24 (session_timeout_hours sec) / 24) <= 999999999 →
  verify_session_token sec now B (create_session_token sec issued A)
  = negb (default 24 (session_timeout_hours sec) * 3600 * 1000000
          <? Calendar.sub now issued)
    && bool_decide
         (hmac_sha256 (secret_key sec) (A +:+ ":" +:+ Calendar.isoformat issued)
          = hmac_sha256 (secret_key sec) (B +:+ ":" +:+ Calendar.isoformat issued)).
Proof.
  intros Hvalid Hrange.
  rewrite (verify_parsed _ _ _ _ _ _ (split_issued sec issued A)).
  rewrite fromisoformat_isoformat by done.
  unfold timedelta_hours. rewrite (proj2 (Z.leb_le _ _) Hrange).
  destruct (_ <? _); [done |]. cbn [negb andb].
  unfold hexdigest. rewrite !is_ascii_hexlify. cbn [andb].
  case_bool_decide as Hsame.
  - rewrite Hsame. apply String.eqb_refl.
  - apply String.eqb_neq. intros Heq. by apply hexlify_inj in Heq.
Qed.

End SessionTokens.

Section SessionTokenClaims.

Context `{Runtime}.

Implicit Types (sec : secrets) (now : Calendar.datetime) (email token : string).


(** C2, amended: verification is a total boolean decision.  Whatever the
    [try] block raises becomes [false]; a credential without the separator,
    with a timestamp that is not ISO text, with a timestamp the clock cannot
    be compared with (an aware one) or a timeout no [timedelta] holds, or
    with a signature other than the expected one, is rejected.  A timestamp
    later than the clock's reading is no such case: the code has no lower
    bound on the elapsed time, and a credential stamped in the future is
    accepted when its signature is right. *)
Theorem verify_fails_closed sec now email token :
  (∀ e, verify_attempt sec now email token = Raise e →
        verify_session_token sec now email token = false)
  ∧ (split_once ":" token = None →
     verify_session_token sec now email token = false)
  ∧ (∀ token_hash timestamp_str,
       split_once ":" token = Some (token_hash, timestamp_str) →
       fromisoformat timestamp_str = None
       ∨ (∃ t off, fromisoformat timestamp_str = Some (Aware t off))
       ∨ 999999999 < Z.abs (default 24 (session_timeout_hours sec) / 24)
       ∨ token_hash
         ≠ hexdigest (secret_key sec) (email +:+ ":" +:+ timestamp_str) →
       verify_session_token sec now email token = false)
  ∧ (∀ issued,
       token = create_session_token sec issued email →
       Calendar.valid_datetime issued →
       Z.abs (default 24 (session_timeout_hours sec) / 24) <= 999999999 →
       0 <= default 24 (session_timeout_hours sec) →
       Calendar.sub now issued < 0 →
       verify_session_token sec now email token = true).
Proof.
  split; [| split; [| split]].
  - intros e He. unfold verify_session_token. by rewrite He.
  - apply verify_unparsed.
  - intros token_hash timestamp_str Hsplit Hbad.
    rewrite (verify_parsed _ _ _ _ _ _ Hsplit).
    destruct Hbad as [-> | [(t & off & ->) | [Hover | Hsig]]]; try done.
    + destruct (fromisoformat _) as [[t | t off] |]; try done.
      unfold timedelta_hours.
      by rewrite (proj2 (Z.leb_gt _ _) Hover).
    + destruct (fromisoformat _) as [[t | t off] |]; try done.
      destruct (timedelta_hours _) as [timeout | e]; [| done].
      destruct (timeout <? Calendar.sub now t); [done |].
      by apply andb_false_intro2, String.eqb_neq.
  - intros issued -> Hvalid Hrange Htimeout Hfuture.
    rewrite verify_issued_for by done.
    rewrite bool_decide_eq_true_2 by done.
    rewrite (proj2 (Z.ltb_ge _ _)) by lia. done.
Qed.

(** C10: with the secret unchanged, a credential verifies for the identity
    it was issued to as long as no more than the session timeout has
    elapsed since issuance. *)
Theorem issued_token_verifies sec email (issued now : Calendar.datetime) :
  Calendar.valid_datetime issued →
  Z.abs (default 24 (session_timeout_hours sec) / 24) <= 999999999 →
  Calendar.sub now issued
  <= default 24 (session_timeout_hours sec) * 3600 * 1000000 →
  verify_session_token sec now email (create_session_token sec issued email)
  = true.
Proof.
  intros Hvalid Hrange Hfresh.
  rewrite (verify_parsed _ _ _ _ _ _ (split_issued sec issued email)).
  rewrite fromisoformat_isoformat by done.
  unfold timedelta_hours. rewrite (proj2 (Z.leb_le _ _) Hrange).
  rewrite (proj2 (Z.ltb_ge _ _) Hfresh).
  unfold hexdigest. by rewrite is_ascii_hexlify, String.eqb_refl.
Qed.

End SessionTokenClaims.

Section SessionTokenWitnesses.


Lemma verify_fails_closed_witness :
  let sec := mk_secrets None None None in
  let now := Calendar.mk_datetime (Calendar.mk_date 2025 1 15) 11 0 0 0 in
  let next_year := Calendar.mk_datetime (Calendar.mk_date 2026 1 15) 11 0 0 0 in
  verify_session_token (H := cpython) sec now "a@x.com" "no separator" = false
  ∧ verify_session_token (H := cpython) sec now "a@x.com" "00ff:yesterday" = false
  ∧ verify_session_token (H := cpython) sec now "a@x.com"
      "00ff:2025-01-15T10:30:00+02:00" = false
  ∧ verify_session_token (H := cpython) sec now "a@x.com"
      "00ff:2025-01-15T10:30:00" = false
  ∧ verify_session_token (H := cpython) sec now "a@x.com"
      (create_session_token (H := cpython) sec next_year "a@x.com") = true.
Proof.
  intros sec now next_year. split; [| split; [| split; [| split]]].
  - apply (verify_fails_closed (H := cpython)). reflexivity.
  - apply (proj1 (proj2 (proj2 (verify_fails_closed (H := cpython) sec now
                                  "a@x.com" _)))
             "00ff" "yesterday"); [reflexivity |].
    left. reflexivity.
  - apply (proj1 (proj2 (proj2 (verify_fails_closed (H := cpython) sec now
                                  "a@x.com" _)))
             "00ff" "2025-01-15T10:30:00+02:00"); [reflexivity |].
    right. left. eexists _, _. reflexivity.
  - apply (proj1 (proj2 (proj2 (verify_fails_closed (H := cpython) sec now
                                  "a@x.com" _)))
             "00ff" "2025-01-15T10:30:00"); [reflexivity |].
    right. right. right. by vm_compute.
  - apply (proj2 (proj2 (proj2 (verify_fails_closed (H := cpython) sec now
                                  "a@x.com" _))) next_year).
    + reflexivity.
    + repeat split; by vm_compute.
    + by vm_compute.
    + by vm_compute.
    + by vm_compute.
Defined.

(** C2 as stated fails: the clock reads 15 January 2025, the credential is
    stamped five years later, and it is accepted. *)
Lemma future_credential_is_accepted :
  let sec := mk_secrets None None None in
  let now := Calendar.mk_datetime (Calendar.mk_date 2025 1 15) 11 0 0 0 in
  let issued := Calendar.mk_datetime (Calendar.mk_date 2030 1 15) 11 0 0 0 in
  Calendar.sub now issued < 0
  ∧ verify_session_token (H := cpython) sec now "a@x.com"
      (create_session_token (H := cpython) sec issued "a@x.com") = true.
Proof. by vm_compute. Qed.

Lemma issued_token_verifies_witness :
  let sec := mk_secrets None None None in
  let issued := Calendar.mk_datetime (Calendar.mk_date 2025 1 15) 10 30 0 123456 in
  let now := Calendar.mk_datetime (Calendar.mk_date 2025 1 16) 10 30 0 0 in
  verify_session_token (H := cpython) sec now "a@x.com"
    (create_session_token (H := cpython) sec issued "a@x.com") = true.
Proof.
  intros sec issued now.
  apply (issued_token_verifies (H := cpython) sec "a@x.com" issued now).
  - repeat split; by vm_compute.
  - by vm_compute.
  - by vm_compute.
Defined.

End SessionTokenWitnesses.

(** ** Digests are 32 bytes, identities are not *)

Section DigestCollisions.



Lemma length_be_bytes (n : nat) (x : Z) : length (SHA256.be_bytes n x) = n.
Proof. induction n as [| n IH]; [done |]. simpl. by rewrite IH. Qed.








End DigestCollisions.

(** ** The matcher terminates within its fuel *)

Section MatcherTotal.

Import difflib.

Variables (a b : list string) (b2j : gmap string (list nat)).

Lemma scan_row_within (alo i blo bhi : nat) (js : list nat)
    (j2len newj2len : gmap nat nat) (best : block) :
  (alo ≤ i)%nat →
  runs_within alo i j2len →
  runs_within alo (S i) newj2len →
  block_within alo (S i) best →
  runs_within alo (S i) (scan_row i blo bhi js j2len newj2len best).1
  ∧ block_within alo (S i) (scan_row i blo bhi js j2len newj2len best).2.
Proof.
  intros Hi Hold. revert newj2len best.
  induction js as [| j js IH]; intros newj2len best Hnew Hbest; [done |].
  cbn [scan_row].
  destruct (j <? blo)%nat; [by apply IH |].
  destruct (bhi <=? j)%nat; [done |].
  set (k := (match j with O => 0 | S j' => default 0 (j2len !! j') end + 1)%nat).
  assert (Hk : (1 ≤ k ≤ S i - alo)%nat).
  { subst k. destruct j as [| j']; [lia |].
    destruct (j2len !! j') as [v |] eqn:Hv; simpl; [| lia].
    specialize (Hold _ _ Hv). lia. }
  apply IH.
  - intros j0 v. rewrite lookup_insert.
    case_decide; [intros [= <-]; lia | apply Hnew].
  - destruct (best.2 <? k)%nat; [| done].
    unfold block_within. simpl. lia.
Qed.

Lemma scan_rows_within (alo blo bhi : nat) (n i : nat)
    (st : gmap nat nat * block) :
  (alo ≤ i)%nat →
  runs_within alo i st.1 → block_within alo i st.2 →
  block_within alo (i + n) (scan_rows a b2j blo bhi st (seq i n)).2.
Proof.
  revert i st. induction n as [| n IH]; intros i [j2len best] Hi Hruns Hbest.
  - simpl. by rewrite Nat.add_0_r.
  - cbn [seq scan_rows foldl]. fold (scan_rows a b2j blo bhi).
    replace (i + S n)%nat with (S i + n)%nat by lia.
    set (js := match a !! i with Some _ => _ | None => _ end).
    assert (Hempty : runs_within alo (S i) ∅).
    { intros j v. by rewrite lookup_empty. }
    assert (Hbest' : block_within alo (S i) best).
    { destruct Hbest. split; simpl in *; lia. }
    destruct (scan_row_within alo i blo bhi js j2len ∅ best Hi Hruns Hempty Hbest')
      as [Hruns'' Hbest''].
    apply IH; [lia | done | done].
Qed.

Lemma extend_left_within (alo blo besti bestj bestsize : nat) :
  (alo ≤ besti)%nat →
  let r := extend_left a b alo blo besti bestj bestsize in
  (alo ≤ r.1.1 ∧ r.1.1 + r.2 = besti + bestsize)%nat.
Proof.
  revert bestj bestsize.
  induction besti as [| i' IH]; intros bestj bestsize Halo; [simpl; lia |].
  cbn [extend_left]. destruct bestj as [| j']; [simpl; lia |].
  destruct (alo <? S i')%nat eqn:Hlt; simpl; [| lia].
  destruct ((blo <? S j')%nat && same_element (a !! i') (b !! j')); simpl;
    [| lia].
  apply Nat.ltb_lt in Hlt.
  destruct (IH j' (S bestsize)) as [? ?]; [lia |]. lia.
Qed.

Lemma extend_right_within (bhi room besti bestj bestsize : nat) :
  let r := extend_right a b bhi room besti bestj bestsize in
  (r.1.1 = besti ∧ bestsize ≤ r.2 ≤ bestsize + room)%nat.
Proof.
  revert bestsize. induction room as [| room IH]; intros bestsize; [simpl; lia |].
  cbn [extend_right].
  destruct ((bestj + bestsize <? bhi)%nat && same_element _ _); simpl; [| lia].
  destruct (IH (S bestsize)) as [? ?]. lia.
Qed.

Lemma find_longest_match_within (alo ahi blo bhi : nat) :
  (alo ≤ ahi)%nat →
  let r := find_longest_match a b b2j alo ahi blo bhi in
  (alo ≤ r.1.1 ∧ r.1.1 + r.2 ≤ ahi)%nat.
Proof.
  intros Hle. unfold find_longest_match.
  assert (Hempty : runs_within alo alo (∅, (alo, blo, 0%nat)).1).
  { intros j v. simpl. by rewrite lookup_empty. }
  assert (Hstart : block_within alo alo (∅ : gmap nat nat, (alo, blo, 0%nat)).2).
  { split; simpl; lia. }
  pose proof (scan_rows_within alo blo bhi (ahi - alo) alo _ (le_n alo)
                Hempty Hstart) as Hscan.
  destruct (scan_rows _ _ _ _ _ _) as [j2len [[besti bestj] bestsize]].
  destruct Hscan as [Hlo Hhi].
  simpl in Hlo, Hhi. replace (alo + (ahi - alo))%nat with ahi in Hhi by lia.
  pose proof (extend_left_within alo blo besti bestj bestsize Hlo) as Hleft.
  destruct (extend_left _ _ _ _ _ _ _) as [[i j] k]. simpl in Hleft.
  pose proof (extend_right_within bhi (ahi - (i + k)) i j k) as Hright.
  destruct (extend_right _ _ _ _ _ _ _) as [[i' j'] k']. simpl in *. lia.
Qed.

Lemma weight_cons (q : nat * nat * nat * nat) (queue : list (nat * nat * nat * nat)) :
  sum_list (range_weight <$> q :: queue)
  = (range_weight q + sum_list (range_weight <$> queue))%nat.
Proof. reflexivity. Qed.

Lemma match_loop_total (fuel : nat) (queue : list (nat * nat * nat * nat))
    (blocks : list block) :
  Forall range_ordered queue →
  (sum_list (range_weight <$> queue) ≤ fuel)%nat →
  is_Some (match_loop a b b2j fuel queue blocks).
Proof.
  revert queue blocks.
  induction fuel as [| fuel IH]; intros [| [[[alo ahi] blo] bhi] queue] blocks
    Hordered Hfuel; try done.
  - rewrite weight_cons in Hfuel. cbn [range_weight] in Hfuel. lia.
  - apply Forall_cons in Hordered as [Hle Hordered]. simpl in Hle.
    rewrite weight_cons in Hfuel. cbn [range_weight] in Hfuel.
    cbn [match_loop].
    pose proof (find_longest_match_within alo ahi blo bhi Hle) as Hwithin.
    destruct (find_longest_match _ _ _ _ _ _ _) as [[i j] k].
    simpl in Hwithin.
    destruct (Nat.eqb_spec k 0); [apply IH; [done | lia] |].
    apply IH.
    + destruct ((i + k <? ahi)%nat && (j + k <? bhi)%nat) eqn:Hright;
        destruct ((alo <? i)%nat && (blo <? j)%nat) eqn:Hleft;
        repeat (apply Forall_cons; split); try done; simpl; lia.
    + destruct ((i + k <? ahi)%nat && (j + k <? bhi)%nat) eqn:Hright;
        destruct ((alo <? i)%nat && (blo <? j)%nat) eqn:Hleft;
        rewrite ?weight_cons; cbn [range_weight]; lia.
Qed.

End MatcherTotal.

(** ** Preference learning *)

Section PreferenceLemmas.

Context `{Runtime}.

Lemma get_matching_blocks_total (a b : list string) :
  is_Some (difflib.get_matching_blocks a b).
Proof.
  unfold difflib.get_matching_blocks.
  destruct (match_loop_total a b (difflib.chain_b b) (2 * length a + 1)
              [(0, length a, 0, length b)%nat] []) as [blocks ->]; [| | done].
  - repeat constructor. simpl. lia.
  - rewrite weight_cons. simpl. lia.
Qed.

Lemma analyze_user_edits_total (original_text edited_text : string) :
  is_Some (analyze_user_edits original_text edited_text).
Proof.
  unfold analyze_user_edits, difflib.get_opcodes.
  by destruct (get_matching_blocks_total (split original_text) (split edited_text))
    as [blocks ->].
Qed.

Lemma length_last_n {A} (n : nat) (l : list A) : (length (last_n n l) ≤ n)%nat.
Proof. unfold last_n. rewrite length_drop. lia. Qed.

Lemma last_n_keeps_newest {A} (n : nat) (l : list A) (x : A) :
  x ∈ last_n (S n) (l ++ [x]).
Proof.
  unfold last_n. rewrite length_app. simpl.
  rewrite drop_app_le by lia. apply elem_of_app. right. by constructor.
Qed.

Lemma length_list_of_set (l : list string) :
  (length (list_of_set l) ≤ length l)%nat.
Proof.
  apply submseteq_length, NoDup_submseteq; [apply list_of_set_NoDup |].
  intros x. by rewrite list_of_set_elem.
Qed.

Lemma letters_differ_false (original edited : string) :
  original = edited ∨ original = "" ∨ edited = "" →
  letters_differ original edited = false.
Proof.
  unfold letters_differ. intros [-> | [-> | ->]].
  - by rewrite String.eqb_refl, andb_false_r.
  - done.
  - by rewrite andb_false_r.
Qed.

(** The merge always returns; its result, field by field. *)
Lemma update_returns env email highlights original edited job w :
  let p := load_user_preferences (load_time env) email w in
  ∃ patterns,
    update_user_preferences_with_session_data env email highlights original
      edited job w
    = Some (save_user_preferences (save_time env) (save_outcome env) email
              (mk_preferences (user_email p)
                 (add_highlights highlights (preferred_highlights p))
                 (writing_style_patterns p) patterns
                 (last_n 20 (job_application_history p
                             ++ [new_job_entry env highlights job]))
                 (last_updated p) (usage_count p + 1)) w)
    ∧ (if letters_differ original edited
       then ∃ found,
              analyze_user_edits original edited = Some found
              ∧ patterns
                = mk_edit_patterns
                    (list_of_set (last_n 50 (commonly_removed_words (edit_patterns p)
                                             ++ removals found)))
                    (list_of_set (last_n 50 (commonly_added_phrases (edit_patterns p)
                                             ++ additions found)))
                    (formatting_preferences (edit_patterns p))
       else patterns = edit_patterns p).
Proof.
  intros p. unfold update_user_preferences_with_session_data. fold p.
  destruct (letters_differ original edited).
  - destruct (analyze_user_edits_total original edited) as [found Hfound].
    rewrite Hfound. simpl. eexists. split; [done |]. by exists found.
  - simpl. by eexists.
Qed.

End PreferenceLemmas.

Section PreferenceClaims.

Context `{Runtime}.

Implicit Types (env : update_env) (w : world) (p : preferences).

Lemma saved_profile env email p w :
  let saved := save_user_preferences (save_time env) (save_outcome env) email p w in
  edit_patterns saved.1 = edit_patterns p
  ∧ preferred_highlights saved.1 = preferred_highlights p
  ∧ job_application_history saved.1 = job_application_history p
  ∧ usage_count saved.1 = usage_count p
  ∧ preference_files saved.2
    = <[preferences_file email :=
          write_file (save_outcome env) saved.1
            (file_at (preference_files w) (preferences_file email))]>
        (preference_files w).
Proof. done. Qed.

(** One merge: what it returns and what it stores. *)
Lemma update_step env (email : string) (highlights : list string)
    (original edited job : string) w :
  let p := load_user_preferences (load_time env) email w in
  ∃ p' w',
    update_user_preferences_with_session_data env email highlights original
      edited job w = Some (p', w')
    ∧ job_application_history p'
      = last_n 20 (job_application_history p ++ [new_job_entry env highlights job])
    ∧ (length (job_application_history p') ≤ 20)%nat
    ∧ preferred_highlights p' = add_highlights highlights (preferred_highlights p)
    ∧ (if letters_differ original edited
       then (length (commonly_removed_words (edit_patterns p')) ≤ 50)%nat
            ∧ (length (commonly_added_phrases (edit_patterns p')) ≤ 50)%nat
       else edit_patterns p' = edit_patterns p)
    ∧ preference_files w'
      = <[preferences_file email :=
            write_file (save_outcome env) p'
              (file_at (preference_files w) (preferences_file email))]>
          (preference_files w).
Proof.
  intros p.
  destruct (update_returns env email highlights original edited job w)
    as (patterns & Hupdate & Hpatterns).
  fold p in Hupdate, Hpatterns.
  set (merged := mk_preferences _ _ _ _ _ _ _) in Hupdate.
  destruct (saved_profile env email merged w)
    as (Hpat & Hpref & Hhist & _ & Hfiles).
  destruct (save_user_preferences _ _ _ _ _) as [p' w'] eqn:Hsave.
  simpl in Hpat, Hpref, Hhist, Hfiles.
  exists p', w'. repeat split; try done.
  - rewrite Hhist. apply length_last_n.
  - rewrite Hpat. simpl.
    destruct (letters_differ original edited); [| done].
    destruct Hpatterns as (found & _ & ->). simpl.
    split; (etrans; [apply length_list_of_set | apply length_last_n]).
Qed.

Lemma loaded_within_caps (now : Calendar.datetime) (email : string) w :
  stored_within_caps w → within_caps (load_user_preferences now email w).
Proof.
  intros Hcaps. unfold load_user_preferences, file_at.
  destruct (preference_files w !! _) as [[| | stored] |] eqn:Hfile;
    simpl; try (repeat split; simpl; lia).
  by apply (Hcaps _ _ Hfile).
Qed.

(** C6, amended: every merge leaves at most 20 history entries, the newest
    20 (the oldest go first); a merge that computes a diff leaves at most 50
    removed words and at most 50 added phrases, one that does not leaves
    both lists as they were; so from stored profiles within these limits
    (a new profile is) any number of merges keeps every stored profile
    within them.  [preferred_highlights] takes each new highlight once and
    has no limit. *)
Theorem merges_keep_caps :
  (∀ env email highlights original edited job w,
     let p := load_user_preferences (load_time env) email w in
     ∃ p' w',
       update_user_preferences_with_session_data env email highlights original
         edited job w = Some (p', w')
       ∧ job_application_history p'
         = last_n 20 (job_application_history p ++ [new_job_entry env highlights job])
       ∧ (length (job_application_history p') ≤ 20)%nat
       ∧ preferred_highlights p' = add_highlights highlights (preferred_highlights p)
       ∧ (if letters_differ original edited
          then (length (commonly_removed_words (edit_patterns p')) ≤ 50)%nat
               ∧ (length (commonly_added_phrases (edit_patterns p')) ≤ 50)%nat
          else edit_patterns p' = edit_patterns p))
  ∧ (∀ calls w,
       stored_within_caps w →
       ∃ w', update_each calls w = Some w' ∧ stored_within_caps w').
Proof.
  split.
  - intros env email highlights original edited job w p.
    destruct (update_step env email highlights original edited job w)
      as (p' & w' & ? & ? & ? & ? & ? & _).
    by exists p', w'.
  - induction calls as [| c calls IH]; intros w Hcaps; [by exists w |].
    cbn [update_each].
    destruct (update_step (call_env c) (call_email c) (call_highlights c)
                (call_original c) (call_edited c) (call_job c) w)
      as (p' & w' & -> & Hhist & Hlen & _ & Hpatterns & Hfiles).
    simpl. apply IH.
    intros key q. rewrite Hfiles, lookup_insert.
    case_decide as Hkey; [| apply Hcaps].
    pose proof (loaded_within_caps (load_time (call_env c)) (call_email c) w Hcaps)
      as (Hrem & Hadd & _).
    assert (Hnew : within_caps p').
    { destruct (letters_differ _ _).
      - destruct Hpatterns. by repeat split.
      - rewrite <- Hpatterns in Hrem, Hadd. by repeat split. }
    unfold file_at. destruct (save_outcome (call_env c)); simpl.
    + by intros [= <-].
    + destruct (preference_files w !! _) as [stored |] eqn:Hfile; simpl;
        [| done].
      intros [= ->]. subst key. by apply (Hcaps _ _ Hfile).
    + done.
Qed.

(** C7, amended: when the original and the edited text are identical, or
    either is empty, the merge computes no diff and leaves the removed words
    and added phrases (all edit patterns) unchanged; it still takes each new
    highlight into [preferred_highlights], appends the history entry and
    increments [usage_count], and writes the profile. *)
Theorem unedited_letter_update env (email : string) (highlights : list string)
    (original edited job : string) w :
  original = edited ∨ original = "" ∨ edited = "" →
  let p := load_user_preferences (load_time env) email w in
  ∃ p' w',
    update_user_preferences_with_session_data env email highlights original
      edited job w = Some (p', w')
    ∧ edit_patterns p' = edit_patterns p
    ∧ preferred_highlights p' = add_highlights highlights (preferred_highlights p)
    ∧ usage_count p' = usage_count p + 1
    ∧ job_application_history p'
      = last_n 20 (job_application_history p ++ [new_job_entry env highlights job])
    ∧ file_at (preference_files w') (preferences_file email)
      = write_file (save_outcome env) p'
          (file_at (preference_files w) (preferences_file email)).
Proof.
  intros Hsame p.
  destruct (update_returns env email highlights original edited job w)
    as (patterns & Hupdate & Hpatterns).
  rewrite (letters_differ_false _ _ Hsame) in Hpatterns. subst patterns.
  fold p in Hupdate.
  set (merged := mk_preferences _ _ _ _ _ _ _) in Hupdate.
  destruct (saved_profile env email merged w)
    as (Hpat & Hpref & Hhist & Hcount & Hfiles).
  destruct (save_user_preferences _ _ _ _ _) as [p' w'] eqn:Hsave.
  simpl in Hpat, Hpref, Hhist, Hcount, Hfiles.
  exists p', w'. repeat split; try done.
  unfold file_at at 1. by rewrite Hfiles, lookup_insert_eq.
Qed.

(** C8, amended: diffing "a b c" against "a x c" yields the single
    replacement of "b" by "x" and neither a removal nor an addition, so the
    merge adds neither word to the profile: the two lists keep the distinct
    entries among their last 50.  A deleted word ("a b c" edited to "a c")
    does reach the removed words, an inserted one ("a c" edited to "a x c")
    the added phrases. *)
Theorem replaced_words_are_not_learned env (email : string)
    (highlights : list string) (job : string) w :
  let p := load_user_preferences (load_time env) email w in
  analyze_user_edits "a b c" "a x c"
  = Some (mk_edit_analysis [] [] [mk_replacement "b" "x"])
  ∧ (∃ p' w',
       update_user_preferences_with_session_data env email highlights
         "a b c" "a x c" job w = Some (p', w')
       ∧ (∀ x, x ∈ commonly_removed_words (edit_patterns p')
               ↔ x ∈ last_n 50 (commonly_removed_words (edit_patterns p)))
       ∧ (∀ x, x ∈ commonly_added_phrases (edit_patterns p')
               ↔ x ∈ last_n 50 (commonly_added_phrases (edit_patterns p))))
  ∧ (∃ p' w',
       update_user_preferences_with_session_data env email highlights
         "a b c" "a c" job w = Some (p', w')
       ∧ "b" ∈ commonly_removed_words (edit_patterns p'))
  ∧ (∃ p' w',
       update_user_preferences_with_session_data env email highlights
         "a c" "a x c" job w = Some (p', w')
       ∧ "x" ∈ commonly_added_phrases (edit_patterns p')).
Proof.
  intros p. split; [by vm_compute |].
  split; [| split].
  - destruct (update_returns env email highlights "a b c" "a x c" job w)
      as (patterns & Hupdate & found & Hfound & ->).
    assert (found = mk_edit_analysis [] [] [mk_replacement "b" "x"]) as ->
      by (vm_compute in Hfound; congruence).
    fold p in Hupdate |- *. rewrite Hupdate. simpl. eexists _, _.
    split; [done |]. simpl. rewrite !app_nil_r.
    split; intros x; apply list_of_set_elem.
  - destruct (update_returns env email highlights "a b c" "a c" job w)
      as (patterns & Hupdate & found & Hfound & ->).
    assert (found = mk_edit_analysis ["b"] [] []) as ->
      by (vm_compute in Hfound; congruence).
    fold p in Hupdate |- *. rewrite Hupdate. simpl. eexists _, _.
    split; [done |]. simpl.
    apply list_of_set_elem, last_n_keeps_newest.
  - destruct (update_returns env email highlights "a c" "a x c" job w)
      as (patterns & Hupdate & found & Hfound & ->).
    assert (found = mk_edit_analysis [] ["x"] []) as ->
      by (vm_compute in Hfound; congruence).
    fold p in Hupdate |- *. rewrite Hupdate. simpl. eexists _, _.
    split; [done |]. simpl.
    apply list_of_set_elem, last_n_keeps_newest.
Qed.

End PreferenceClaims.

Section PreferenceExamples.

Let at_noon : Calendar.datetime :=
  Calendar.mk_datetime (Calendar.mk_date 2025 1 15) 12 0 0 0.

Let env : update_env := mk_update_env at_noon at_noon at_noon "session-1" Committed.

Let new_world : world := mk_world Absent ∅ ∅ (mk_sink 0 []).

(** C6 as stated fails: one merge of 51 distinct highlights into a new
    profile leaves 51 preferred highlights. *)
Lemma preferred_highlights_exceed_50 :
  let highlights := (λ i, Calendar.zero_padded 2 (Z.of_nat i)) <$> seq 0 51 in
  (λ r, length (preferred_highlights r.1))
  <$> update_user_preferences_with_session_data (H := cpython) env "a@x.com"
        highlights "" "" "Engineer at Acme" new_world
  = Some 51%nat.
Proof. by vm_compute. Qed.

Lemma merges_keep_caps_witness :
  let calls :=
    [mk_update_call env "a@x.com" ["Python"] "a b c" "a c" "Engineer at Acme";
     mk_update_call env "a@x.com" ["Rocq"] "a c" "a x c" "Engineer at Acme"] in
  ∃ w', update_each (H := cpython) calls new_world = Some w'
        ∧ stored_within_caps w'.
Proof.
  intros calls.
  apply (proj2 (merges_keep_caps (H := cpython)) calls new_world).
  intros key p Hfile. exact (False_ind _ (lookup_empty_Some key (Doc p) Hfile)).
Defined.

(** C7 as stated fails: with identical texts the stored profile's usage
    count goes from 0 to 1 and its preferred highlights from none to one. *)
Lemma unedited_letter_changes_profile :
  let stored := default_preferences at_noon "a@x.com" in
  let w := mk_world Absent ∅ {[ preferences_file "a@x.com" := Doc stored ]}
             (mk_sink 0 []) in
  usage_count stored = 0
  ∧ preferred_highlights stored = []
  ∧ (λ r, match file_at (preference_files r.2) (preferences_file "a@x.com") with
          | Doc p => Some (usage_count p, preferred_highlights p)
          | _ => None
          end)
    <$> update_user_preferences_with_session_data (H := cpython) env "a@x.com"
          ["Python"] "Dear team" "Dear team" "Engineer at Acme" w
    = Some (Some (1, ["Python"])).
Proof. by vm_compute. Qed.

Lemma unedited_letter_update_witness :
  ∃ p' w',
    update_user_preferences_with_session_data (H := cpython) env "a@x.com"
      ["Python"] "Dear team" "Dear team" "Engineer at Acme" new_world
    = Some (p', w')
    ∧ edit_patterns p' = mk_edit_patterns [] [] []
    ∧ preferred_highlights p' = ["Python"]
    ∧ usage_count p' = 1.
Proof.
  destruct (unedited_letter_update (H := cpython) env "a@x.com" ["Python"]
              "Dear team" "Dear team" "Engineer at Acme" new_world)
    as (p' & w' & Hupdate & Hpatterns & Hpreferred & Hcount & _);
    [by left |].
  by exists p', w'.
Defined.

(** C8 as stated fails: after diffing "a b c" against "a x c" and merging
    into a new profile, neither list holds anything. *)
Lemma replaced_words_leave_lists_empty :
  (λ r, (commonly_removed_words (edit_patterns r.1),
         commonly_added_phrases (edit_patterns r.1)))
  <$> update_user_preferences_with_session_data (H := cpython) env "a@x.com"
        [] "a b c" "a x c" "Engineer at Acme" new_world
  = Some ([], []).
Proof. by vm_compute. Qed.

End PreferenceExamples.

(** ** Invitation registry *)

Section InvitationRegistry.

Lemma keys_of_map (m : gmap string user_info) (key : string) :
  key ∈ (map_to_list m).*1 ↔ is_Some (m !! key).
Proof.
  rewrite list_elem_of_fmap. split.
  - intros ([k v] & -> & Hin). apply elem_of_map_to_list in Hin. by exists v.
  - intros [v Hv]. exists (key, v). split; [done |].
    by apply elem_of_map_to_list.
Qed.

Lemma keys_after_secrets (users : list (string * string))
    (m : gmap string user_info) (key : string) :
  is_Some (foldl (λ acc '(email, user_name), <[email := secrets_user user_name]> acc)
                 m users !! key)
  ↔ is_Some (m !! key) ∨ key ∈ users.*1.
Proof.
  revert m. induction users as [| [email user_name] users IH]; intros m.
  - simpl. rewrite elem_of_nil. tauto.
  - cbn [foldl fmap list_fmap]. rewrite IH, lookup_insert_is_Some, elem_of_cons.
    simpl. destruct (decide (email = key)); intuition congruence.
Qed.

Lemma roster_keys (sec : secrets) (f : file invitation_doc) (key : string) :
  key ∈ (map_to_list (load_invited_users sec f)).*1
  ↔ key ∈ file_keys f ∨ key ∈ secrets_keys sec.
Proof.
  rewrite keys_of_map. unfold load_invited_users, secrets_keys, file_keys.
  assert (Hfile : ∀ m : gmap string user_info,
            is_Some ((m ∪ ∅) !! key) ↔ key ∈ (map_to_list m).*1).
  { intros m. by rewrite keys_of_map, (right_id_L ∅ (∪)). }
  destruct (secrets_invited_users sec) as [users |]; simpl.
  - rewrite keys_after_secrets.
    destruct f as [| | data]; simpl; rewrite ?Hfile, ?lookup_empty, ?elem_of_nil;
      rewrite ?is_Some_alt; tauto.
  - destruct f as [| | data]; simpl; rewrite ?Hfile, ?lookup_empty, ?elem_of_nil;
      rewrite ?is_Some_alt; tauto.
Qed.

(** C9 as stated fails: with the invitation file absent, an address listed
    in the deployment secrets is invited. *)
Lemma invited_without_file :
  is_user_invited (mk_secrets None None (Some [("a@x.com", "Alice")]))
    Absent "A@X.com" = true.
Proof. by vm_compute. Qed.

(** C9, amended: an address is invited exactly when its lowercased form
    equals the lowercased form of a key of the roster, which is the
    ['invited_users'] section of the invitation file together with the
    [invited_users] table of the deployment secrets; an absent or malformed
    file contributes no key, so the answer is then the secrets table's, and
    [false] when there is none. *)
Theorem invited_iff_roster_key (sec : secrets) (f : file invitation_doc)
    (email : string) :
  (is_user_invited sec f email = true
   ↔ ∃ key, (key ∈ file_keys f ∨ key ∈ secrets_keys sec)
            ∧ lower key = lower email)
  ∧ (f = Absent ∨ f = Malformed → file_keys f = [])
  ∧ (f = Absent ∨ f = Malformed → secrets_invited_users sec = None →
     is_user_invited sec f email = false).
Proof.
  assert (Hiff : is_user_invited sec f email = true
                 ↔ ∃ key, (key ∈ file_keys f ∨ key ∈ secrets_keys sec)
                          ∧ lower key = lower email).
  { unfold is_user_invited. rewrite bool_decide_eq_true, list_elem_of_fmap.
    split.
    - intros (key & Hlower & Hkey). exists key. by rewrite <- roster_keys.
    - intros (key & Hkey & Hlower). exists key. by rewrite roster_keys. }
  split; [done |]. split.
  - by intros [-> | ->].
  - intros Hfile Hsecrets. apply not_true_is_false. rewrite Hiff.
    intros (key & [Hkey | Hkey] & _).
    + by destruct Hfile as [-> | ->]; apply elem_of_nil in Hkey.
    + unfold secrets_keys in Hkey. rewrite Hsecrets in Hkey.
      by apply elem_of_nil in Hkey.
Qed.

Lemma invited_iff_roster_key_witness :
  let from_file : gmap string user_info :=
    {[ "Ann@Example.com" := mk_user_info "Ann" "2025-01-15" "active" "user" ]} in
  let f := Doc (mk_invitation_doc (Some from_file)) in
  let sec := mk_secrets None None None in
  is_user_invited sec f "ann@example.COM" = true
  ∧ is_user_invited sec Malformed "ann@example.COM" = false.
Proof.
  intros from_file f sec. split.
  - apply (proj1 (invited_iff_roster_key sec f "ann@example.COM")).
    exists "Ann@Example.com". split; [left; vm_compute; constructor | reflexivity].
  - apply (proj2 (proj2 (invited_iff_roster_key sec Malformed "ann@example.COM")));
      [by right | reflexivity].
Defined.

End InvitationRegistry.

(** ** Input sanitizing *)

Section Sanitizing.

Local Abbreviation chars := list_ascii_of_string.

Lemma length_chars (s : string) : length (chars s) = String.length s.
Proof. induction s as [| c s IH]; simpl; [done | by rewrite IH]. Qed.

Lemma chars_inj (s1 s2 : string) : chars s1 = chars s2 → s1 = s2.
Proof.
  intros Heq.
  rewrite <- (string_of_list_ascii_of_string s1), Heq.
  apply string_of_list_ascii_of_string.
Qed.

Lemma sublist_same_length {A} (l1 l2 : list A) :
  l1 `sublist_of` l2 → (length l2 ≤ length l1)%nat → l1 = l2.
Proof.
  induction 1 as [| x l1 l2 Hsub IH | x l1 l2 Hsub IH]; simpl; intros Hlen.
  - done.
  - f_equal. apply IH. lia.
  - apply sublist_length in Hsub. lia.
Qed.

Lemma take_chars_sublist (n : nat) (s : string) :
  chars (take_chars n s) `sublist_of` chars s.
Proof.
  revert s. induction n as [| n IH]; intros [| c s]; simpl;
    try apply sublist_nil_l.
  by apply sublist_skip.
Qed.

Lemma length_take_chars (n : nat) (s : string) :
  (String.length (take_chars n s) ≤ n)%nat.
Proof.
  revert s. induction n as [| n IH]; intros [| c s]; simpl; try lia.
  specialize (IH s). lia.
Qed.

Lemma take_chars_all (n : nat) (s : string) :
  (String.length s ≤ n)%nat → take_chars n s = s.
Proof.
  revert s. induction n as [| n IH]; intros [| c s]; simpl; try done; try lia.
  intros Hlen. f_equal. apply IH. lia.
Qed.

Lemma remove_from_sublist (pattern : string) (skip : nat) (s : string) :
  chars (remove_from pattern skip s) `sublist_of` chars s.
Proof.
  revert skip. induction s as [| c s IH]; intros skip; [done |].
  cbn [remove_from]. destruct skip as [| k].
  - destruct (String.prefix pattern (String c s)).
    + apply sublist_cons, IH.
    + apply sublist_skip, IH.
  - apply sublist_cons, IH.
Qed.

Lemma remove_all_sublist (pattern s : string) :
  chars (remove_all pattern s) `sublist_of` chars s.
Proof.
  unfold remove_all. destruct (String.eqb pattern ""); [done |].
  apply remove_from_sublist.
Qed.

Lemma remove_each_sublist (patterns : list string) (s : string) :
  chars (foldl (λ sanitized pattern, remove_all pattern sanitized) s patterns)
  `sublist_of` chars s.
Proof.
  revert s. induction patterns as [| p patterns IH]; intros s; [done |].
  simpl. etrans; [apply IH | apply remove_all_sublist].
Qed.

Lemma lstrip_sublist (s : string) : chars (lstrip s) `sublist_of` chars s.
Proof.
  induction s as [| c s IH]; [done |]. simpl.
  destruct (is_space c); [by apply sublist_cons | done].
Qed.

Lemma rstrip_sublist (s : string) : chars (rstrip s) `sublist_of` chars s.
Proof.
  induction s as [| c s IH]; [done |]. simpl.
  destruct (is_space c && String.eqb (rstrip s) "").
  - apply sublist_nil_l.
  - by apply sublist_skip.
Qed.

Lemma strip_sublist (s : string) : chars (strip s) `sublist_of` chars s.
Proof. unfold strip. etrans; [apply rstrip_sublist | apply lstrip_sublist]. Qed.

(** A stripped text starts and ends with a character that is not blank. *)
Lemma lstrip_fixed (s : string) :
  match s with
  | String c _ => is_space c = false
  | "" => True
  end → lstrip s = s.
Proof.
  destruct s as [| c s]; [done |]. intros Hc. cbn [lstrip]. by rewrite Hc.
Qed.

Lemma rstrip_idemp (s : string) : rstrip (rstrip s) = rstrip s.
Proof.
  induction s as [| c s IH]; [done |]. simpl.
  destruct (is_space c && String.eqb (rstrip s) "") eqn:Hblank; [done |].
  simpl. by rewrite IH, Hblank.
Qed.

Lemma lstrip_head (s : string) :
  match lstrip s with
  | String c _ => is_space c = false
  | "" => True
  end.
Proof.
  induction s as [| c s IH]; [done |]. simpl.
  by destruct (is_space c) eqn:Hc.
Qed.

Lemma rstrip_head (s : string) :
  match s with
  | String c _ => is_space c = false
  | "" => True
  end →
  match rstrip s with
  | String c _ => is_space c = false
  | "" => True
  end.
Proof.
  destruct s as [| c s]; [done |]. intros Hc. cbn [rstrip]. by rewrite Hc.
Qed.

Lemma strip_trimmed (s : string) :
  lstrip (strip s) = strip s ∧ rstrip (strip s) = strip s.
Proof.
  unfold strip. split.
  - apply lstrip_fixed, rstrip_head, lstrip_head.
  - apply rstrip_idemp.
Qed.

Lemma sanitize_sublist (s : string) (max_length : Z) :
  chars (sanitize_user_input s max_length) `sublist_of` chars s.
Proof.
  unfold sanitize_user_input. destruct (String.eqb s ""); [apply sublist_nil_l |].
  etrans; [apply strip_sublist |]. etrans; [apply remove_each_sublist |].
  unfold slice_to. destruct (0 <=? max_length); apply take_chars_sublist.
Qed.

(** X1: sanitizing only deletes characters: the result is a subsequence of
    the input, it neither starts nor ends with a blank, it is at most
    [max_length] long when that is not negative, and it has the input's
    length only when it is the input itself (the caller's test for "the
    input was changed"). *)
Theorem sanitize_only_deletes (user_input : string) (max_length : Z) :
  let sanitized := sanitize_user_input user_input max_length in
  chars sanitized `sublist_of` chars user_input
  ∧ lstrip sanitized = sanitized
  ∧ rstrip sanitized = sanitized
  ∧ (0 <= max_length → Z.of_nat (String.length sanitized) <= max_length)
  ∧ (String.length sanitized = String.length user_input ↔ sanitized = user_input).
Proof.
  intros sanitized. pose proof (sanitize_sublist user_input max_length) as Hsub.
  fold sanitized in Hsub. split; [done |].
  assert (Htrim : lstrip sanitized = sanitized ∧ rstrip sanitized = sanitized).
  { subst sanitized. unfold sanitize_user_input.
    destruct (String.eqb user_input ""); [done | apply strip_trimmed]. }
  destruct Htrim as [Hl Hr]. repeat split; try done.
  - intros Hmax. subst sanitized. unfold sanitize_user_input.
    destruct (String.eqb user_input ""); [simpl; lia |].
    set (cut := slice_to max_length user_input).
    assert (Hcut : (String.length cut ≤ Z.to_nat max_length)%nat).
    { subst cut. unfold slice_to. rewrite (proj2 (Z.leb_le _ _) Hmax).
      apply length_take_chars. }
    pose proof (sublist_length _ _ (strip_sublist
      (foldl (λ sanitized pattern, remove_all pattern sanitized) cut
             dangerous_patterns))) as H1.
    pose proof (sublist_length _ _ (remove_each_sublist dangerous_patterns cut))
      as H2.
    rewrite !length_chars in H1, H2. lia.
  - intros Hlen. apply chars_inj, sublist_same_length; [done |].
    rewrite !length_chars. lia.
  - by intros ->.
Qed.

Lemma remove_from_absent (pattern s : string) :
  contains pattern s = false → remove_from pattern 0 s = s.
Proof.
  induction s as [| c s IH]; [done |]. cbn [contains remove_from].
  intros [Hprefix Hrest]%orb_false_elim.
  rewrite Hprefix. f_equal. by apply IH.
Qed.

(** X2: a text that holds none of the dangerous patterns and fits in
    [max_length] is returned stripped of its outer blanks, and otherwise as
    it is. *)
Theorem sanitize_clean_input (user_input : string) (max_length : Z) :
  (∀ pattern, pattern ∈ dangerous_patterns → contains pattern user_input = false) →
  Z.of_nat (String.length user_input) <= max_length →
  sanitize_user_input user_input max_length = strip user_input.
Proof.
  intros Hclean Hfits. unfold sanitize_user_input.
  destruct (String.eqb_spec user_input "") as [-> | Hne]; [done |].
  unfold slice_to. rewrite (proj2 (Z.leb_le 0 max_length)) by lia.
  rewrite take_chars_all by lia. f_equal.
  assert (Hall : Forall (λ pattern, contains pattern user_input = false)
                   dangerous_patterns).
  { apply Forall_forall. intros p Hp. by apply Hclean. }
  clear Hclean. induction Hall as [| p patterns Hp _ IH]; [done |].
  simpl. unfold remove_all at 2.
  destruct (String.eqb p ""); [done |]. by rewrite remove_from_absent.
Qed.

Lemma sanitize_clean_input_witness :
  sanitize_user_input "  Dear hiring team  " 10000 = "Dear hiring team".
Proof.
  rewrite (sanitize_clean_input "  Dear hiring team  " 10000).
  - reflexivity.
  - intros pattern Hp. unfold dangerous_patterns in Hp.
    repeat (apply elem_of_cons in Hp as [-> | Hp]; [reflexivity |]).
    by apply elem_of_nil in Hp.
  - by vm_compute.
Defined.

End Sanitizing.

(** ** Upload file types *)

Section FileTypes.

Local Abbreviation chars := list_ascii_of_string.

Lemma chars_append (s1 s2 : string) : chars (s1 +:+ s2) = chars s1 ++ chars s2.
Proof. induction s1 as [| c s1 IH]; [done |]. rewrite append_String. simpl. by rewrite IH. Qed.



Lemma length_lower (s : string) : String.length (lower s) = String.length s.
Proof. induction s as [| c s IH]; [done |]. simpl. by rewrite IH. Qed.

















End FileTypes.

(** ** Audit log and its statistics *)

Section AuditStatistics.

Lemma count_line_adds (stats : security_stats) (line : string) :
  count_line stats line = add_stats stats (count_line no_events line).
Proof.
  destruct stats as [t s f a r]. unfold count_line, add_stats, no_events.
  repeat (destruct (contains _ line)); simpl; f_equal; lia.
Qed.

Lemma count_lines_add (stats : security_stats) (lines : list string) :
  foldl count_line stats lines = add_stats stats (foldl count_line no_events lines).
Proof.
  revert stats. induction lines as [| line lines IH]; intros stats.
  - destruct stats. unfold add_stats. simpl. f_equal; lia.
  - simpl. rewrite IH, (IH (count_line no_events line)), (count_line_adds stats).
    destruct stats, (count_line no_events line), (foldl count_line no_events lines).
    unfold add_stats. simpl. f_equal; lia.
Qed.

Lemma count_line_balanced (stats : security_stats) (line : string) :
  let stats' := count_line stats line in
  total_auth_attempts stats' - successful_logins stats' - failed_logins stats'
  = total_auth_attempts stats - successful_logins stats - failed_logins stats
  ∧ successful_logins stats <= successful_logins stats'
  ∧ failed_logins stats <= failed_logins stats'
  ∧ file_accesses stats <= file_accesses stats'
  ∧ rate_limit_violations stats <= rate_limit_violations stats'
  ∧ successful_logins stats' + failed_logins stats' + file_accesses stats'
    + rate_limit_violations stats'
    <= successful_logins stats + failed_logins stats + file_accesses stats
       + rate_limit_violations stats + 1.
Proof.
  unfold count_line. repeat (destruct (contains _ line)); simpl; lia.
Qed.

(** X4: the audit statistics count every line in at most one category,
    never below zero; the authentication total is always the successes plus
    the failures; the counts of a log are the sums of the counts of its
    parts; and a missing audit file gives all zeros. *)
Theorem security_stats_are_sums (lines1 lines2 : list string) :
  let stats := get_security_stats (Some (lines1 ++ lines2)) in
  stats = add_stats (get_security_stats (Some lines1))
                    (get_security_stats (Some lines2))
  ∧ total_auth_attempts stats = successful_logins stats + failed_logins stats
  ∧ 0 <= successful_logins stats ∧ 0 <= failed_logins stats
  ∧ 0 <= file_accesses stats ∧ 0 <= rate_limit_violations stats
  ∧ successful_logins stats + failed_logins stats + file_accesses stats
    + rate_limit_violations stats <= Z.of_nat (length (lines1 ++ lines2))
  ∧ get_security_stats None = no_events.
Proof.
  intros stats. split.
  - subst stats. unfold get_security_stats.
    by rewrite foldl_app, count_lines_add.
  - subst stats. unfold get_security_stats.
    generalize (lines1 ++ lines2). intros lines.
    assert (Hinv : ∀ start,
      let stats := foldl count_line start lines in
      total_auth_attempts stats - successful_logins stats - failed_logins stats
      = total_auth_attempts start - successful_logins start - failed_logins start
      ∧ successful_logins start <= successful_logins stats
      ∧ failed_logins start <= failed_logins stats
      ∧ file_accesses start <= file_accesses stats
      ∧ rate_limit_violations start <= rate_limit_violations stats
      ∧ successful_logins stats + failed_logins stats + file_accesses stats
        + rate_limit_violations stats
        <= successful_logins start + failed_logins start + file_accesses start
           + rate_limit_violations start + Z.of_nat (length lines)).
    { induction lines as [| line lines IH]; intros start; [simpl; lia |].
      cbn [foldl]. pose proof (count_line_balanced start line) as Hline.
      specialize (IH (count_line start line)). simpl in *.
      rewrite Nat2Z.inj_succ. lia. }
    specialize (Hinv no_events). simpl in Hinv. repeat split; try lia.
Qed.

Lemma log_security_event_appends (now : Calendar.datetime) (event email : string)
    (details : list (string * detail)) (a : audit_sink) :
  let a' := log_security_event now event email details a in
  handlers a' = S (handlers a)
  ∧ length (audit_lines a') = (length (audit_lines a) + S (handlers a))%nat.
Proof.
  cbv zeta. unfold log_security_event, setup_security_logging.
  cbn [handlers audit_lines]. by rewrite length_app, length_replicate.
Qed.

Lemma log_each_cons (now : Calendar.datetime) (event email : string)
    (details : list (string * detail))
    (events : list (Calendar.datetime * string * string * list (string * detail)))
    (a : audit_sink) :
  log_each ((now, event, email, details) :: events) a
  = log_each events (log_security_event now event email details a).
Proof. reflexivity. Qed.

(** X5: every logged event attaches one more handler to the shared logger,
    so the n-th event logged by a process is written n times: after n events
    the audit log has grown by [n * h + n * (n + 1) / 2] lines, [h] being the
    handlers attached before. *)
Theorem audit_lines_grow_quadratically
    (events : list (Calendar.datetime * string * string * list (string * detail)))
    (a : audit_sink) :
  let n := length events in
  handlers (log_each events a) = (handlers a + n)%nat
  ∧ length (audit_lines (log_each events a))
    = (length (audit_lines a) + n * handlers a + n * (n + 1) / 2)%nat.
Proof.
  revert a. induction events as [| [[[now event] email] details] events IH];
    intros a.
  - simpl. split; lia.
  - rewrite log_each_cons.
    destruct (log_security_event_appends now event email details a) as [Hh Hl].
    destruct (IH (log_security_event now event email details a)) as [IHh IHl].
    cbv zeta in *. rewrite IHh, IHl, Hh, Hl. cbn [length]. split; [lia |].
    set (n := length events).
    assert (Hhalf : (S n * (S n + 1) / 2 = n * (n + 1) / 2 + (n + 1))%nat).
    { replace (S n * (S n + 1))%nat with (n * (n + 1) + (n + 1) * 2)%nat by lia.
      by rewrite Nat.div_add. }
    rewrite Hhalf. lia.
Qed.

End AuditStatistics.

(** ** Daily usage: statistics and reset *)

Section DailyUsageAdmin.

Implicit Types (w : world) (user date : string) (now : Calendar.datetime).

Local Abbreviation sum_counts :=
  (map_fold (λ (_ : string) (count total : Z), count + total) 0).

Lemma sum_counts_insert (m : gmap string Z) (user : string) (count : Z) :
  sum_counts (<[user := count]> m)
  = sum_counts m - default 0 (m !! user) + count.
Proof.
  destruct (m !! user) as [old |] eqn:Hold; simpl.
  - rewrite <- insert_delete_eq.
    rewrite (map_fold_delete_L _ _ user old m); [| intros; lia | done].
    rewrite map_fold_insert_L; [lia | intros; lia | apply lookup_delete_eq].
  - rewrite map_fold_insert_L; [lia | intros; lia | done].
Qed.

Lemma stats_of_readable now w :
  let date := Calendar.strftime_ymd (Calendar.on_date now) in
  let today := default ∅ (load_or_empty (daily_usage w) !! date) in
  total_today (get_daily_usage_stats now w) = sum_counts today
  ∧ users_today (get_daily_usage_stats now w) = size today
  ∧ usage_by_user (get_daily_usage_stats now w) = today.
Proof.
  unfold get_daily_usage_stats.
  destruct (daily_usage w) as [| | usage]; simpl; try done.
  all: by rewrite lookup_empty.
Qed.

Lemma today_after_record now log_now user w :
  let date := Calendar.strftime_ymd (Calendar.on_date now) in
  let today := default ∅ (load_or_empty (daily_usage w) !! date) in
  default ∅ (load_or_empty
               (daily_usage (record_cover_letter_generation now log_now
                               Committed user w).2) !! date)
  = <[user := default 0 (today !! user) + 1]> today.
Proof.
  unfold record_cover_letter_generation. simpl.
  destruct (load_or_empty (daily_usage w) !! _) eqn:Hday; simpl.
  - by rewrite Hday, lookup_insert_eq.
  - by rewrite !lookup_insert_eq.
Qed.

(** X6: one recorded generation raises the day's total of the usage
    statistics by one, raises the user's own count by one, leaves every
    other user's count as it was, and raises the number of users of the day
    by one exactly when the user had no count yet; the statistics and the
    quota status read the same count; a usage file that is missing or
    cannot be read gives a total of zero, no user and no date. *)
Theorem usage_stats_follow_records now now' log_now user w :
  Calendar.on_date now' = Calendar.on_date now →
  let w' := (record_cover_letter_generation now log_now Committed user w).2 in
  let before := get_daily_usage_stats now' w in
  let after := get_daily_usage_stats now' w' in
  total_today after = total_today before + 1
  ∧ usage_by_user after !! user
    = Some (default 0 (usage_by_user before !! user) + 1)
  ∧ (∀ user', user' ≠ user →
       usage_by_user after !! user' = usage_by_user before !! user')
  ∧ users_today after
    = match usage_by_user before !! user with
      | Some _ => users_today before
      | None => S (users_today before)
      end
  ∧ default 0 (usage_by_user before !! user)
    = recorded_count w (Calendar.strftime_ymd (Calendar.on_date now')) user
  ∧ (daily_usage w = Absent ∨ daily_usage w = Malformed →
     before = mk_daily_usage_stats 0 0 ∅ None).
Proof.
  intros Hdate w' before after.
  assert (Hunread : daily_usage w = Absent ∨ daily_usage w = Malformed →
                    before = mk_daily_usage_stats 0 0 ∅ None).
  { subst before. unfold get_daily_usage_stats. by intros [-> | ->]. }
  revert Hunread. generalize (mk_daily_usage_stats 0 0 ∅ None). intros zero Hunread.
  destruct (stats_of_readable now' w) as (Htotal & Husers & Hmap).
  destruct (stats_of_readable now' w') as (Htotal' & Husers' & Hmap').
  fold before in Htotal, Husers, Hmap. fold after in Htotal', Husers', Hmap'.
  pose proof (today_after_record now log_now user w) as Htoday.
  fold w' in Htoday. cbv zeta in *. rewrite Hdate in *.
  assert (Hcount : default 0 (usage_by_user before !! user)
                   = recorded_count w (Calendar.strftime_ymd (Calendar.on_date now)) user)
    by (by rewrite Hmap).
  rewrite Htoday in Htotal', Husers', Hmap'. rewrite <- Hmap in *.
  rewrite Htotal', Husers', Hmap', Htotal, Husers.
  split; [rewrite sum_counts_insert; lia |].
  split; [apply lookup_insert_eq |].
  split; [intros user' Hne; by apply lookup_insert_ne |].
  split; [| by split].
  destruct (usage_by_user before !! user) eqn:Hsome.
  - by apply map_size_insert_Some.
  - by apply map_size_insert_None.
Qed.

Lemma usage_stats_follow_records_witness :
  let now := Calendar.mk_datetime (Calendar.mk_date 2025 1 15) 9 0 0 0 in
  let later := Calendar.mk_datetime (Calendar.mk_date 2025 1 15) 17 30 0 0 in
  let w := mk_world (Doc {[ "2025-01-15" := {[ "b@x.com" := 2 ]} ]}) ∅ ∅
             (mk_sink 0 []) in
  let w' := (record_cover_letter_generation now now Committed "a@x.com" w).2 in
  total_today (get_daily_usage_stats later w') = 3
  ∧ users_today (get_daily_usage_stats later w') = 2%nat.
Proof.
  intros now later w w'.
  destruct (usage_stats_follow_records now later now "a@x.com" w eq_refl)
    as (Htotal & _ & _ & Husers & _).
  split; [exact Htotal | exact Husers].
Defined.

(** X7: the administrative reset fails without touching anything when the
    usage file cannot be read; otherwise, once written, it leaves the user
    without a count for the day, so that the quota status reads zero used,
    and it keeps every other user's and every other day's count. *)
Theorem reset_clears_todays_count now log_now (o : write_outcome) user w :
  let date := Calendar.strftime_ymd (Calendar.on_date now) in
  let w' := (reset_user_daily_limit now log_now o user w).2 in
  (daily_usage w = Malformed →
   reset_user_daily_limit now log_now o user w = (false, w))
  ∧ (daily_usage w ≠ Malformed → o = Committed →
     (reset_user_daily_limit now log_now o user w).1 = true
     ∧ recorded_count w' date user = 0
     ∧ (∀ date' user', (date', user') ≠ (date, user) →
          recorded_count w' date' user' = recorded_count w date' user')
     ∧ (∀ now' today next limit,
          Calendar.on_date now' = Calendar.on_date now →
          Calendar.tomorrow today = Some next →
          (check_daily_cover_letter_limit now' today user limit w').1
          = Some (mk_daily_status (0 <? limit) (Z.max 0 (limit - 0)) 0
                    (Calendar.isoformat (Calendar.midnight next)) limit))).
Proof.
  intros date w'. split.
  - unfold reset_user_daily_limit. by intros ->.
  - intros Hreadable ->.
    assert (Hreset :
      (reset_user_daily_limit now log_now Committed user w).1 = true
      ∧ recorded_count w' date user = 0
      ∧ (∀ date' user', (date', user') ≠ (date, user) →
           recorded_count w' date' user' = recorded_count w date' user')).
    { subst w'. unfold reset_user_daily_limit, recorded_count. fold date.
      destruct (daily_usage w) as [| | usage] eqn:Hfile; [| done |]; simpl.
      - rewrite lookup_empty. simpl. by rewrite !lookup_empty.
      - destruct (usage !! date) as [today |] eqn:Hday; simpl.
        + destruct (today !! user) as [count |] eqn:Hcount; simpl.
          * split; [done |]. split.
            -- rewrite lookup_insert_eq. simpl. by rewrite lookup_delete_eq.
            -- intros date' user' Hne.
               destruct (decide (date' = date)) as [-> | Hd].
               ++ rewrite lookup_insert_eq, Hday. simpl.
                  rewrite lookup_delete_ne; [done | congruence].
               ++ by rewrite lookup_insert_ne.
          * split; [done |]. by rewrite Hday; simpl; rewrite Hcount.
        + split; [done |]. by rewrite Hday; simpl; rewrite lookup_empty. }
    destruct Hreset as (Hok & Hzero & Hothers). repeat split; try done.
    intros now' today next limit Hsame Hnext.
    rewrite (check_reads_recorded_count _ _ next) by done.
    cbn [fst]. rewrite Hsame. fold date. by rewrite Hzero.
Qed.

Lemma reset_clears_todays_count_witness :
  let now := Calendar.mk_datetime (Calendar.mk_date 2025 1 15) 9 0 0 0 in
  let w := mk_world (Doc {[ "2025-01-15" := {[ "a@x.com" := 5 ]} ]}) ∅ ∅
             (mk_sink 0 []) in
  let w' := (reset_user_daily_limit now now Committed "a@x.com" w).2 in
  (check_daily_cover_letter_limit now (Calendar.on_date now) "a@x.com" 5 w').1
  = Some (mk_daily_status true 5 0 "2025-01-16T00:00:00" 5).
Proof.
  intros now w w'.
  destruct (proj2 (reset_clears_todays_count now now Committed "a@x.com" w))
    as (_ & _ & _ & Hcheck); [done | done |].
  exact (Hcheck now (Calendar.on_date now) (Calendar.mk_date 2025 1 16) 5
           eq_refl eq_refl).
Defined.

End DailyUsageAdmin.

(** ** Rate limiter: what one call touches and what it keeps *)

Section RateLimiterFrame.

Variables (user action : string) (max_requests minutes : Z).

Implicit Types (w : world) (t : Z) (o : write_outcome).

(** X8: a rate-limit check touches the file of its own action only, and,
    when its write commits, the timestamps of its own user only; an admitted
    call writes nothing to the audit log and a refused one nothing to the
    rate-limit store.  The daily-usage and preference stores are never
    touched. *)
Theorem rate_limit_touches_one_window t (log_now : Calendar.datetime) o w :
  let r := check_rate_limit t log_now o user action max_requests minutes w in
  daily_usage r.2 = daily_usage w
  ∧ preference_files r.2 = preference_files w
  ∧ (∀ action', action' ≠ action →
       file_at (rate_limits r.2) action' = file_at (rate_limits w) action')
  ∧ (o = Committed → ∀ user', user' ≠ user →
       recorded_requests r.2 action user' = recorded_requests w action user')
  ∧ (r.1 = true → audit r.2 = audit w)
  ∧ (r.1 = false → rate_limits r.2 = rate_limits w).
Proof.
  intros r. subst r. rewrite check_rate_limit_unfold. cbv zeta.
  destruct (_ >=? _); cbn [fst snd]; repeat split; try done.
  - intros action' Hne. unfold file_at. simpl. by rewrite lookup_insert_ne.
  - intros -> user' Hne. unfold recorded_requests, file_at. simpl.
    rewrite lookup_insert_eq. simpl. by rewrite lookup_insert_ne.
Qed.

(** X9: a call is admitted exactly when fewer than [max_requests] of the
    user's recorded timestamps are later than the cutoff; after an admitted
    call whose write commits, the store holds for the user exactly the
    recorded timestamps later than the cutoff, every one of them, in their
    order, followed by the time of the call; there are at most
    [max_requests] of them. *)
Theorem admitted_request_keeps_window t (log_now : Calendar.datetime) w :
  let r := check_rate_limit t log_now Committed user action max_requests minutes w in
  let cutoff := t - minutes * 60 * 1000000 in
  let kept := filter (λ req, cutoff < req) (recorded_requests w action user) in
  (r.1 = true ↔ Z.of_nat (length kept) < max_requests)
  ∧ (r.1 = true →
     recorded_requests r.2 action user = kept ++ [t]
     ∧ (∀ req, req ∈ kept ↔ req ∈ recorded_requests w action user ∧ cutoff < req)
     ∧ kept `sublist_of` recorded_requests w action user
     ∧ Z.of_nat (length (kept ++ [t])) <= max_requests).
Proof.
  intros r cutoff kept. subst r. rewrite check_rate_limit_unfold. cbv zeta.
  fold cutoff. fold kept.
  destruct (Z.geb_spec (Z.of_nat (length kept)) max_requests) as [| Hroom];
    cbn [fst snd].
  - split; [| done]. split; [done | lia].
  - split; [done |]. intros _. rewrite recorded_after_commit.
    split; [done |]. split; [| split].
    + intros req. unfold kept. rewrite list_elem_of_filter. tauto.
    + apply sublist_filter.
    + rewrite length_app. simpl. lia.
Qed.

End RateLimiterFrame.

Section RateLimiterFrameWitness.

Lemma admitted_request_keeps_window_witness :
  let log_now := Calendar.mk_datetime (Calendar.mk_date 2023 11 14) 22 13 20 0 in
  let stored : gmap string (list Z) :=
    {[ "a@x.com" := [1700000000000000; 1700000950000000] ]} in
  let w := mk_world Absent {[ "authentication" := Doc stored ]} ∅ (mk_sink 0 []) in
  recorded_requests
    (check_rate_limit 1700001000000000 log_now Committed "a@x.com"
       "authentication" 5 15 w).2 "authentication" "a@x.com"
  = [1700000950000000; 1700001000000000].
Proof.
  intros log_now stored w.
  destruct (proj2 (admitted_request_keeps_window "a@x.com" "authentication" 5 15
                     1700001000000000 log_now w) eq_refl)
    as (Hrec & _).
  exact Hrec.
Defined.

End RateLimiterFrameWitness.

(** ** Preference files *)

Section PreferenceFiles.

Implicit Types (w : world) (p : preferences) (email : string)
  (now : Calendar.datetime).

Lemma load_after_save now now' (o : write_outcome) email email' p w :
  preferences_file email' = preferences_file email →
  load_user_preferences now' email'
    (save_user_preferences now o email p w).2
  = match write_file o (with_last_updated (Calendar.isoformat now) p)
            (file_at (preference_files w) (preferences_file email)) with
    | Doc stored => stored
    | _ => default_preferences now' email'
    end.
Proof.
  intros Hsame. unfold load_user_preferences, save_user_preferences, file_at.
  simpl. by rewrite Hsame, lookup_insert_eq.
Qed.

(** X10: a profile that was saved is the profile loaded afterwards, with
    [last_updated] set to the time of the save; the profiles kept in other
    files are unaffected; a refused write leaves the stored profile in
    place, and a write cut short leaves a file that loads as a new default
    profile. *)
Theorem saved_preferences_are_loaded now now' email p w :
  load_user_preferences now' email
    (save_user_preferences now Committed email p w).2
  = with_last_updated (Calendar.isoformat now) p
  ∧ (save_user_preferences now Committed email p w).1
    = with_last_updated (Calendar.isoformat now) p
  ∧ (∀ (o : write_outcome) email',
       preferences_file email' ≠ preferences_file email →
       load_user_preferences now' email' (save_user_preferences now o email p w).2
       = load_user_preferences now' email' w)
  ∧ load_user_preferences now' email (save_user_preferences now Refused email p w).2
    = load_user_preferences now' email w
  ∧ load_user_preferences now' email (save_user_preferences now Torn email p w).2
    = default_preferences now' email.
Proof.
  split; [by rewrite load_after_save |]. split; [done |]. split; [| split].
  - intros o email' Hne.
    unfold load_user_preferences, save_user_preferences, file_at. simpl.
    by rewrite lookup_insert_ne.
  - rewrite load_after_save by done. unfold load_user_preferences. simpl.
    by destruct (file_at _ _).
  - by rewrite load_after_save.
Qed.

Lemma replace_char_append (c : ascii) (by_s s1 s2 : string) :
  replace_char c by_s (s1 +:+ s2)
  = replace_char c by_s s1 +:+ replace_char c by_s s2.
Proof.
  induction s1 as [| x s1 IH]; [done |].
  rewrite append_String. simpl. rewrite IH.
  destruct (Ascii.eqb x c); [by rewrite append_assoc | done].
Qed.

Lemma preferences_file_append (s1 s2 : string) :
  preferences_file (s1 +:+ s2) = preferences_file s1 +:+ preferences_file s2.
Proof. unfold preferences_file. by rewrite !replace_char_append. Qed.

(** X11: the name of a preference file does not tell a dot from an
    underscore, nor an at sign from the text [_at_]: addresses that differ
    only so share one file, and the profile saved for one of them is the
    profile loaded for the other. *)
Theorem preference_files_are_shared (a b : string) now now' p w :
  preferences_file (a +:+ "." +:+ b) = preferences_file (a +:+ "_" +:+ b)
  ∧ preferences_file (a +:+ "@" +:+ b) = preferences_file (a +:+ "_at_" +:+ b)
  ∧ load_user_preferences now' (a +:+ "_" +:+ b)
      (save_user_preferences now Committed (a +:+ "." +:+ b) p w).2
    = with_last_updated (Calendar.isoformat now) p.
Proof.
  assert (Hdot : preferences_file (a +:+ "." +:+ b)
                 = preferences_file (a +:+ "_" +:+ b))
    by (by rewrite !preferences_file_append).
  split; [done |]. split; [by rewrite !preferences_file_append |].
  by rewrite load_after_save.
Qed.

End PreferenceFiles.

(** ** Preferred highlights and learned words *)

Section LearnedLists.

Context `{Runtime}.

Lemma add_highlights_extends (highlights current : list string) :
  current `prefix_of` add_highlights highlights current
  ∧ (∀ x, x ∈ add_highlights highlights current ↔ x ∈ current ∨ x ∈ highlights)
  ∧ (NoDup current → NoDup (add_highlights highlights current)).
Proof.
  revert current. induction highlights as [| h highlights IH]; intros current.
  - simpl. split; [done |]. split; [| done].
    intros x. rewrite elem_of_nil. tauto.
  - cbn [add_highlights foldl]. fold (add_highlights highlights).
    case_bool_decide as Hin.
    + destruct (IH current) as (Hpre & Hmem & Hnodup).
      split; [done |]. split; [| done].
      intros x. rewrite Hmem, elem_of_cons.
      split; [tauto |]. intros [? | [-> | ?]]; tauto.
    + destruct (IH (current ++ [h])) as (Hpre & Hmem & Hnodup).
      split; [etrans; [by apply prefix_app_r | done] |]. split.
      * intros x. rewrite Hmem, elem_of_app, !elem_of_cons, elem_of_nil. tauto.
      * intros Hcur. apply Hnodup, NoDup_app. split; [done |]. split.
        -- intros x Hx Hx'. apply list_elem_of_singleton in Hx'. by subst x.
        -- apply NoDup_singleton.
Qed.

(** X12: a merge keeps the preferred highlights already stored, in their
    places, and appends each highlight of the call that is not yet there:
    the new list holds exactly the old entries and the call's highlights,
    and has no duplicate if the old list had none. *)
Theorem merge_extends_preferred_highlights (env : update_env) (email : string)
    (highlights : list string) (original edited job : string) (w : world) :
  let p := load_user_preferences (load_time env) email w in
  ∃ p' w',
    update_user_preferences_with_session_data env email highlights original
      edited job w = Some (p', w')
    ∧ preferred_highlights p `prefix_of` preferred_highlights p'
    ∧ (∀ x, x ∈ preferred_highlights p'
            ↔ x ∈ preferred_highlights p ∨ x ∈ highlights)
    ∧ (NoDup (preferred_highlights p) → NoDup (preferred_highlights p')).
Proof.
  intros p.
  destruct (update_returns env email highlights original edited job w)
    as (patterns & Hupdate & _).
  fold p in Hupdate. rewrite Hupdate. eexists _, _. split; [done |].
  cbn [save_user_preferences fst with_last_updated preferred_highlights].
  apply add_highlights_extends.
Qed.

Lemma slice_subseteq {A} (l : list A) (i1 i2 : nat) : slice l i1 i2 ⊆ l.
Proof.
  unfold slice. etrans; [apply sublist_subseteq, sublist_take |].
  apply sublist_subseteq, sublist_drop.
Qed.

Lemma analyze_opcodes_subseteq (original_words edited_words : list string)
    (opcodes : list difflib.opcode) (acc : edit_analysis) :
  removals acc ⊆ original_words → additions acc ⊆ edited_words →
  let found := foldl (analyze_opcode original_words edited_words) acc opcodes in
  removals found ⊆ original_words ∧ additions found ⊆ edited_words.
Proof.
  revert acc. induction opcodes as [| [[[[tag i1] i2] j1] j2] opcodes IH];
    intros acc Hrem Hadd; [done |].
  cbn [foldl]. apply IH; destruct tag; simpl; try done.
  - intros x [? | ?]%elem_of_app; [by apply Hrem | by eapply slice_subseteq].
  - intros x [? | ?]%elem_of_app; [by apply Hadd | by eapply slice_subseteq].
Qed.

Lemma analysis_subseteq (original edited : string) (found : edit_analysis) :
  analyze_user_edits original edited = Some found →
  removals found ⊆ split original ∧ additions found ⊆ split edited.
Proof.
  unfold analyze_user_edits.
  destruct (difflib.get_opcodes _ _) as [opcodes |]; [| done].
  simpl. intros [= <-].
  by apply (analyze_opcodes_subseteq _ _ opcodes (mk_edit_analysis [] [] []));
    simpl; intros x Hx; apply elem_of_nil in Hx.
Qed.

Lemma merge_sources (env : update_env) (email : string)
    (highlights : list string) (original edited job : string) (w : world) :
  let p := load_user_preferences (load_time env) email w in
  ∃ p' w',
    update_user_preferences_with_session_data env email highlights original
      edited job w = Some (p', w')
    ∧ (∀ x, x ∈ commonly_removed_words (edit_patterns p') →
            x ∈ commonly_removed_words (edit_patterns p) ∨ x ∈ split original)
    ∧ (∀ x, x ∈ commonly_added_phrases (edit_patterns p') →
            x ∈ commonly_added_phrases (edit_patterns p) ∨ x ∈ split edited).
Proof.
  intros p.
  destruct (update_returns env email highlights original edited job w)
    as (patterns & Hupdate & Hpatterns).
  fold p in Hupdate, Hpatterns. rewrite Hupdate. eexists _, _.
  split; [done |].
  cbn [save_user_preferences fst with_last_updated edit_patterns].
  destruct (letters_differ original edited).
  - destruct Hpatterns as (found & Hfound & ->).
    destruct (analysis_subseteq _ _ _ Hfound) as [Hrem Hadd]. simpl.
    split; intros x Hx; apply (proj1 (list_of_set_elem _ _)) in Hx;
      apply (sublist_subseteq _ _ (sublist_drop _ _)) in Hx;
      apply elem_of_app in Hx as [? | ?]; auto.
  - subst patterns. auto.
Qed.

(** X13: the edit analysis always returns, and what it reports as removed
    are words of the original text, what it reports as added are words of
    the edited text; so after a merge every removed word of the profile was
    already stored or stands in the original letter, and every added phrase
    was already stored or stands in the edited letter. *)
Theorem learned_words_come_from_the_letters (env : update_env) (email : string)
    (highlights : list string) (original edited job : string) (w : world) :
  let p := load_user_preferences (load_time env) email w in
  (∃ found,
     analyze_user_edits original edited = Some found
     ∧ removals found ⊆ split original ∧ additions found ⊆ split edited)
  ∧ ∃ p' w',
      update_user_preferences_with_session_data env email highlights original
        edited job w = Some (p', w')
      ∧ (∀ x, x ∈ commonly_removed_words (edit_patterns p') →
              x ∈ commonly_removed_words (edit_patterns p) ∨ x ∈ split original)
      ∧ (∀ x, x ∈ commonly_added_phrases (edit_patterns p') →
              x ∈ commonly_added_phrases (edit_patterns p) ∨ x ∈ split edited).
Proof.
  intros p. split.
  - destruct (analyze_user_edits_total original edited) as [found Hfound].
    exists found. split; [done |]. by apply analysis_subseteq.
  - apply merge_sources.
Qed.

Lemma split_words_clean (s : string) (word : option string) :
  match word with
  | Some w => w ≠ "" ∧ ∀ c, c ∈ list_ascii_of_string w → is_space c = false
  | None => True
  end →
  ∀ x, x ∈ split_words s word →
       x ≠ "" ∧ ∀ c, c ∈ list_ascii_of_string x → is_space c = false.
Proof.
  revert word. induction s as [| c s IH]; intros word Hword x Hx.
  - destruct word as [w |]; simpl in Hx.
    + by apply list_elem_of_singleton in Hx as ->.
    + by apply elem_of_nil in Hx.
  - cbn [split_words] in Hx. destruct (is_space c) eqn:Hc.
    + destruct word as [w |].
      * apply elem_of_cons in Hx as [-> | Hx]; [done |]. by apply (IH None).
      * by apply (IH None).
    + apply (IH (Some (default "" word +:+ String c ""))); [| done]. split.
      * destruct word as [[| ? ?] |]; simpl; by rewrite ?append_String.
      * intros c'. rewrite chars_append. simpl.
        rewrite elem_of_app, list_elem_of_singleton. intros [Hc' | ->]; [| done].
        destruct word as [w |]; [by apply Hword |]. by apply elem_of_nil in Hc'.
Qed.

Lemma split_words_one (x acc : string) :
  (∀ c, c ∈ list_ascii_of_string x → is_space c = false) →
  split_words x (Some acc) = [acc +:+ x].
Proof.
  revert acc. induction x as [| c x IH]; intros acc Hx.
  - simpl. by rewrite append_empty_r.
  - cbn [split_words]. rewrite (Hx c) by (simpl; apply elem_of_cons; by left).
    cbn [default]. rewrite IH.
    + by rewrite append_assoc, append_String, append_empty_l.
    + intros c' Hc'. apply Hx. simpl. apply elem_of_cons. by right.
Qed.

Lemma split_of_word (s x : string) : x ∈ split s → split x = [x].
Proof.
  intros Hx. destruct (split_words_clean s None I x Hx) as [Hne Hclean].
  destruct x as [| c x]; [done |]. unfold split. cbn [split_words].
  rewrite (Hclean c) by (simpl; apply elem_of_cons; by left).
  cbn [default]. rewrite append_empty_l, split_words_one.
  - by rewrite append_String, append_empty_l.
  - intros c' Hc'. apply Hclean. simpl. apply elem_of_cons. by right.
Qed.

Lemma loaded_single_words (now : Calendar.datetime) (email : string) (w : world) :
  single_word_phrases w →
  Forall (λ phrase, (length (split phrase) ≤ 1)%nat)
         (commonly_added_phrases
            (edit_patterns (load_user_preferences now email w))).
Proof.
  intros Hsingle. unfold load_user_preferences, file_at.
  destruct (preference_files w !! _) as [[| | stored] |] eqn:Hfile;
    simpl; try by apply Forall_nil.
  by apply (Hsingle _ _ Hfile).
Qed.

Lemma merge_keeps_single_words (env : update_env) (email : string)
    (highlights : list string) (original edited job : string) (w : world) :
  single_word_phrases w →
  ∃ p' w',
    update_user_preferences_with_session_data env email highlights original
      edited job w = Some (p', w')
    ∧ single_word_phrases w'.
Proof.
  intros Hsingle.
  destruct (update_step env email highlights original edited job w)
    as (p' & w' & Hupdate & _ & _ & _ & _ & Hfiles).
  destruct (merge_sources env email highlights original edited job w)
    as (q' & v' & Hupdate' & _ & Hadded).
  rewrite Hupdate in Hupdate'. injection Hupdate' as <- <-.
  exists p', w'. split; [done |].
  intros key q. rewrite Hfiles, lookup_insert.
  case_decide as Hkey; [| apply Hsingle].
  destruct (save_outcome env); simpl; intros [= Hq].
  - subst q. apply Forall_forall. intros x [Hx | Hx]%Hadded.
    + by apply (proj1 (Forall_forall _ _)
                  (loaded_single_words (load_time env) email w Hsingle)).
    + by rewrite (split_of_word _ _ Hx).
  - apply (Hsingle (preferences_file email)). unfold file_at in Hq.
    by destruct (preference_files w !! _) as [? |]; simplify_eq/=.
Qed.

Lemma filter_none {A} (P : A → Prop) `{!∀ x, Decision (P x)} (l : list A) :
  Forall (λ x, ¬ P x) l → filter P l = [].
Proof.
  induction 1 as [| x l Hx _ IH]; [done |].
  by rewrite filter_cons_False.
Qed.

(** X14: what the merges learn as added phrases are single words, and the
    prompt only quotes phrases of two words or more: from stored profiles
    whose added phrases are single words (new profiles have none), after
    any number of merges the stored phrases are still single words, and the
    prompt context of every user is made of the highlights line and the
    avoided-words line alone. *)
Theorem learned_phrases_never_reach_the_prompt (calls : list update_call)
    (w : world) :
  single_word_phrases w →
  ∃ w',
    update_each calls w = Some w'
    ∧ single_word_phrases w'
    ∧ ∀ now email,
        let p := load_user_preferences now email w' in
        prompt_additions p
        = (if nonempty (preferred_highlights p) then
             ["The user typically likes to highlight these strengths: "
              +:+ join_with ", " (last_n 5 (preferred_highlights p))]
           else [])
          ++ (if nonempty (commonly_removed_words (edit_patterns p)) then
                ["The user typically avoids these words/phrases: "
                 +:+ join_with ", "
                       (last_n 5 (commonly_removed_words (edit_patterns p)))]
              else []).
Proof.
  revert w. induction calls as [| c calls IH]; intros w Hsingle.
  - exists w. split; [done |]. split; [done |]. intros now email p.
    assert (Hnone : filter (λ phrase, (1 < length (split phrase))%nat)
                      (commonly_added_phrases (edit_patterns p)) = []).
    { apply filter_none.
      eapply Forall_impl; [by apply loaded_single_words |]. simpl. lia. }
    unfold prompt_additions. rewrite Hnone. simpl.
    by destruct (nonempty (preferred_highlights p)),
         (nonempty (commonly_added_phrases (edit_patterns p))),
         (nonempty (commonly_removed_words (edit_patterns p))).
  - cbn [update_each].
    destruct (merge_keeps_single_words (call_env c) (call_email c)
                (call_highlights c) (call_original c) (call_edited c)
                (call_job c) w Hsingle) as (p' & w' & -> & Hsingle').
    simpl. by apply IH.
Qed.

End LearnedLists.

Section LearnedListsWitness.

Let session_env : update_env :=
  let t := Calendar.mk_datetime (Calendar.mk_date 2025 6 15) 12 0 0 0 in
  mk_update_env t t t "a_at_x_com" Committed.

Lemma learned_phrases_never_reach_the_prompt_witness :
  let new_world := mk_world Absent ∅ ∅ (mk_sink 0 []) in
  let calls :=
    [mk_update_call session_env "a@x.com" ["Python"] "I am keen"
       "I am very keen indeed" "Engineer at Acme"] in
  ∃ w',
    update_each (H := cpython) calls new_world = Some w'
    ∧ single_word_phrases w'
    ∧ ∀ now email,
        let p := load_user_preferences now email w' in
        prompt_additions p
        = (if nonempty (preferred_highlights p) then
             ["The user typically likes to highlight these strengths: "
              +:+ join_with ", " (last_n 5 (preferred_highlights p))]
           else [])
          ++ (if nonempty (commonly_removed_words (edit_patterns p)) then
                ["The user typically avoids these words/phrases: "
                 +:+ join_with ", "
                       (last_n 5 (commonly_removed_words (edit_patterns p)))]
              else []).
Proof.
  intros new_world calls.
  apply (learned_phrases_never_reach_the_prompt (H := cpython) calls new_world).
  intros key p Hfile. exact (False_ind _ (lookup_empty_Some key (Doc p) Hfile)).
Defined.

End LearnedListsWitness.

(** ** Sign-in *)

Section SignIn.

Context `{Runtime} `{DictOrder}.

Implicit Types (sec : secrets) (f : file invitation_doc) (email : string)
  (s : session_state) (w : world) (now : Calendar.datetime).

Lemma lower_char_idemp (c : ascii) : lower_char (lower_char c) = lower_char c.
Proof. by destruct c as [[] [] [] [] [] [] [] []]. Qed.

Lemma lower_idemp (x : string) : lower (lower x) = lower x.
Proof.
  induction x as [| c x IH]; [done |]. simpl. by rewrite lower_char_idemp, IH.
Qed.

Lemma first_info_Some email (entries : list (string * user_info)) info :
  first_info email entries = Some info →
  ∃ key, (key, info) ∈ entries ∧ lower key = lower email.
Proof.
  induction entries as [| [key info'] entries IH]; [done |]. simpl.
  destruct (String.eqb_spec (lower key) (lower email)) as [Hkey | _].
  - intros [= ->]. exists key. split; [apply elem_of_cons; by left | done].
  - intros (key' & ? & ?)%IH. exists key'.
    split; [apply elem_of_cons; by right | done].
Qed.

Lemma first_info_None email (entries : list (string * user_info)) :
  first_info email entries = None →
  ∀ key info, (key, info) ∈ entries → lower key ≠ lower email.
Proof.
  induction entries as [| [key' info'] entries IH]; intros Hnone key info Hin.
  - by apply elem_of_nil in Hin.
  - simpl in Hnone.
    destruct (String.eqb_spec (lower key') (lower email)) as [| Hne]; [done |].
    apply elem_of_cons in Hin as [[= -> ->] | Hin]; [done |]. by eapply IH.
Qed.

Lemma invited_entry sec f email :
  is_user_invited sec f email = true
  ↔ ∃ key info, load_invited_users sec f !! key = Some info
                ∧ lower key = lower email.
Proof.
  unfold is_user_invited. cbv zeta. rewrite bool_decide_eq_true.
  rewrite list_elem_of_fmap. split.
  - intros (key & Hkey & ([key' info] & -> & Hin)%list_elem_of_fmap).
    apply elem_of_map_to_list in Hin. by exists key', info.
  - intros (key & info & Hin & Hkey). exists key. split; [done |].
    apply list_elem_of_fmap. exists (key, info).
    split; [done |]. by apply elem_of_map_to_list.
Qed.

Lemma user_info_entry sec f email :
  (∀ info, get_user_info sec f email = Some info →
           ∃ key, lower key = lower email
                  ∧ load_invited_users sec f !! key = Some info)
  ∧ (get_user_info sec f email = None → is_user_invited sec f email = false).
Proof.
  unfold get_user_info. cbv zeta. split.
  - intros info (key & Hin & Hkey)%first_info_Some. exists key.
    split; [done |]. apply elem_of_map_to_list. by rewrite <- items_entries.
  - intros Hnone. apply not_true_is_false.
    intros (key & info & Hin & Hkey)%invited_entry.
    apply (first_info_None _ _ Hnone key info); [| done].
    rewrite items_entries. by apply elem_of_map_to_list.
Qed.

(** X15: [get_user_info] finds a record exactly for the addresses
    [is_user_invited] accepts, and the record is the one of a roster key
    that equals the address up to letter case; neither function tells the
    address from its lower-case form. *)
Theorem user_info_found_iff_invited sec f email :
  (is_Some (get_user_info sec f email) ↔ is_user_invited sec f email = true)
  ∧ (∀ info, get_user_info sec f email = Some info →
             ∃ key, lower key = lower email
                    ∧ load_invited_users sec f !! key = Some info)
  ∧ get_user_info sec f (lower email) = get_user_info sec f email
  ∧ is_user_invited sec f (lower email) = is_user_invited sec f email.
Proof.
  destruct (user_info_entry sec f email) as [Hsome Hnone].
  split; [| split; [done | split]].
  - split.
    + intros [info (key & Hkey & Hin)%Hsome]. apply invited_entry. by exists key, info.
    + intros Hinvited. destruct (get_user_info sec f email) as [info |]; [done |].
      by rewrite Hnone in Hinvited.
  - unfold get_user_info. cbv zeta.
    induction (items _) as [| [key info] entries IH]; [done |].
    simpl. by rewrite lower_idemp, IH.
  - unfold is_user_invited. by rewrite lower_idemp.
Qed.

Lemma page_unfold (env : sign_in_env) sec f email s w :
  let pruned := filter (λ req, attempt_time env - 15 * 60 * 1000000 < req)
                       (recorded_requests w "authentication" email) in
  let limited := check_rate_limit (attempt_time env) (log_time env)
                   (limit_outcome env) email "authentication" 5 15 w in
  show_authentication_page env sec f email true s w
  = if String.eqb email "" then
      (ReturnedFalse, s,
       with_audit (log_authentication_attempt (log_time env) "" false None (audit w)) w)
    else if negb (validate_email_format email) then
      (ReturnedFalse, s,
       with_audit (log_authentication_attempt (log_time env) email false None (audit w)) w)
    else if Z.of_nat (length pruned) >=? 5 then (ReturnedFalse, s, limited.2)
    else if negb (is_user_invited sec f email) then
      (ReturnedFalse, s,
       with_audit (log_authentication_attempt (log_time env) email false None
                     (audit limited.2)) limited.2)
    else
      match get_user_info sec f email with
      | None => (AttributeErrorRaised, s, limited.2)
      | Some info =>
          (Rerun,
           signed_in (lower email) info
             (create_session_token sec (token_time env) (lower email))
             (auth_time env) s,
           with_audit (log_authentication_attempt (log_time env) email true None
                         (audit limited.2)) limited.2)
      end.
Proof.
  intros pruned limited. unfold show_authentication_page. cbn [negb].
  destruct (String.eqb email ""); [done |].
  destruct (validate_email_format email); [| done]. cbn [negb].
  subst limited. rewrite check_rate_limit_unfold. cbv zeta. fold pruned.
  by destruct (_ >=? _).
Qed.

Lemma page_outcome (env : sign_in_env) sec f email s w :
  let r := show_authentication_page env sec f email true s w in
  let pruned := filter (λ req, attempt_time env - 15 * 60 * 1000000 < req)
                       (recorded_requests w "authentication" email) in
  r.1.1 ≠ AttributeErrorRaised
  ∧ (r.1.1 = Rerun
     ↔ email ≠ "" ∧ validate_email_format email = true
       ∧ (length pruned < 5)%nat ∧ is_user_invited sec f email = true)
  ∧ (r.1.1 = ReturnedFalse → r.1.2 = s)
  ∧ (r.1.1 = Rerun →
     ∃ info,
       get_user_info sec f email = Some info
       ∧ r.1.2 = signed_in (lower email) info
                   (create_session_token sec (token_time env) (lower email))
                   (auth_time env) s)
  ∧ (email = "" ∨ validate_email_format email = false →
     rate_limits r.2 = rate_limits w)
  ∧ handlers (audit r.2) = S (handlers (audit w)).
Proof.
  intros r pruned. subst r. rewrite page_unfold. cbv zeta. fold pruned.
  rewrite check_rate_limit_unfold. cbv zeta. fold pruned.
  destruct (String.eqb_spec email "") as [-> | Hemail].
  { cbn [fst snd]. split_and!; try done. split; [done | by intros (? & _)]. }
  destruct (validate_email_format email) eqn:Hformat; cbn [negb].
  2: { cbn [fst snd]. split_and!; try done. split; [done | by intros (_ & ? & _)]. }
  destruct (Z.geb_spec (Z.of_nat (length pruned)) 5) as [Hfull | Hroom].
  { cbn [fst snd]. split_and!; try done.
    split; [done | intros (_ & _ & ? & _); lia]. }
  cbn [fst snd].
  destruct (is_user_invited sec f email) eqn:Hinvited; cbn [negb].
  2: { cbn [fst snd]. split_and!; try done.
       - split; [done | by intros (_ & _ & _ & ?)].
       - by intros [? | ?]. }
  destruct (get_user_info sec f email) as [info |] eqn:Hinfo.
  - cbn [fst snd]. split_and!; try done.
    + split; [intros _ | done]. split_and!; try done. lia.
    + intros _. by exists info.
    + by intros [? | ?].
  - apply (proj2 (user_info_entry sec f email)) in Hinfo. congruence.
Qed.

(** X16: a submitted sign-in is granted exactly when the address is not
    empty, has the form of an address, has fewer than 5 attempts recorded in
    the last 15 minutes and is invited, in this order of tests; it never
    fails on a missing user record.  A run that is not granted leaves the
    session as it was; an empty or malformed address is not counted by the
    rate limiter; every submitted run attaches one more handler to the
    security logger. *)
Theorem sign_in_granted_to_invited_addresses (env : sign_in_env) sec f email s w :
  let r := show_authentication_page env sec f email true s w in
  let pruned := filter (λ req, attempt_time env - 15 * 60 * 1000000 < req)
                       (recorded_requests w "authentication" email) in
  r.1.1 ≠ AttributeErrorRaised
  ∧ (r.1.1 = Rerun
     ↔ email ≠ "" ∧ validate_email_format email = true
       ∧ (length pruned < 5)%nat ∧ is_user_invited sec f email = true)
  ∧ (r.1.1 = ReturnedFalse → r.1.2 = s)
  ∧ (r.1.1 = Rerun →
     ∃ info,
       get_user_info sec f email = Some info
       ∧ r.1.2 = signed_in (lower email) info
                   (create_session_token sec (token_time env) (lower email))
                   (auth_time env) s)
  ∧ (email = "" ∨ validate_email_format email = false →
     rate_limits r.2 = rate_limits w)
  ∧ handlers (audit r.2) = S (handlers (audit w))
  ∧ show_authentication_page env sec f email false s w = (ReturnedFalse, s, w).
Proof.
  intros r pruned.
  destruct (page_outcome env sec f email s w)
    as (Hraise & Hgranted & Hrefused & Hsession & Hlimits & Hhandlers).
  by split_and!.
Qed.

Lemma invited_lower sec f email :
  is_user_invited sec f (lower email) = is_user_invited sec f email.
Proof. unfold is_user_invited. by rewrite lower_idemp. Qed.

Lemma token_not_empty sec now email :
  String.eqb (create_session_token sec now email) "" = false.
Proof.
  unfold create_session_token. cbv zeta.
  by destruct (hexdigest _ _).
Qed.

Lemma check_authentication_signed_in sec f now email info
    (issued auth : Calendar.datetime) (s0 : session_state) :
  email ≠ "" →
  let s := signed_in (lower email) info
             (create_session_token sec issued (lower email)) auth s0 in
  check_authentication sec f now s
  = if is_user_invited sec f email
       && verify_session_token sec now (lower email)
            (create_session_token sec issued (lower email))
    then (true, s) else (false, unauthenticate s).
Proof.
  intros Hemail s. unfold check_authentication.
  cbn [authenticated s signed_in state_user_email state_session_token truthy].
  unfold default. cbn [from_option id negb].
  rewrite token_not_empty.
  assert (String.eqb (lower email) "" = false) as ->.
  { destruct email; [done | by simpl]. }
  cbn [negb orb]. rewrite invited_lower.
  destruct (is_user_invited sec f email); [| done]. cbn [negb andb].
  by destruct (verify_session_token _ _ _ _).
Qed.

(** X17: the session a granted sign-in leaves passes [check_authentication]
    as long as the address stays invited and no more than the session
    timeout has elapsed since the token was made; it fails it, and is marked
    unauthenticated, once more than the timeout has elapsed. *)
Theorem signed_in_session_is_checked (env : sign_in_env) sec f email s w now :
  let r := show_authentication_page env sec f email true s w in
  r.1.1 = Rerun →
  Calendar.valid_datetime (token_time env) →
  Z.abs (default 24 (session_timeout_hours sec) / 24) <= 999999999 →
  (Calendar.sub now (token_time env)
   <= default 24 (session_timeout_hours sec) * 3600 * 1000000 →
   check_authentication sec f now r.1.2 = (true, r.1.2))
  ∧ (default 24 (session_timeout_hours sec) * 3600 * 1000000
     < Calendar.sub now (token_time env) →
     check_authentication sec f now r.1.2 = (false, unauthenticate r.1.2))
  ∧ (∀ f', is_user_invited sec f' email = false →
           check_authentication sec f' now r.1.2 = (false, unauthenticate r.1.2)).
Proof.
  intros r Hgranted Hvalid Hrange.
  destruct (page_outcome env sec f email s w)
    as (_ & Hiff & _ & Hsession & _).
  destruct (proj1 Hiff Hgranted) as (Hemail & _ & _ & Hinvited).
  destruct (Hsession Hgranted) as (info & _ & Hs). subst r. rewrite Hs.
  assert (Hverify :
    verify_session_token sec now (lower email)
      (create_session_token sec (token_time env) (lower email))
    = negb (default 24 (session_timeout_hours sec) * 3600 * 1000000
            <? Calendar.sub now (token_time env))).
  { rewrite (verify_parsed _ _ _ _ _ _ (split_issued sec (token_time env) (lower email))).
    rewrite fromisoformat_isoformat by done.
    unfold timedelta_hours. rewrite (proj2 (Z.leb_le _ _) Hrange).
    destruct (_ <? _); [done |].
    unfold hexdigest. by rewrite is_ascii_hexlify, String.eqb_refl. }
  split; [| split].
  - intros Hfresh. rewrite check_authentication_signed_in by done.
    by rewrite Hinvited, Hverify, (proj2 (Z.ltb_ge _ _) Hfresh).
  - intros Hexpired. rewrite check_authentication_signed_in by done.
    by rewrite Hinvited, Hverify, (proj2 (Z.ltb_lt _ _) Hexpired).
  - intros f' Hgone. rewrite check_authentication_signed_in by done.
    by rewrite Hgone.
Qed.

(** X18: a check that passes leaves the session as it is; a session that
    has failed a check fails every later check, whatever the roster, the
    secrets and the time; so does a session after [logout_user]. *)
Theorem failed_check_stays_failed sec f now s :
  let r := check_authentication sec f now s in
  (r.1 = true ∧ r.2 = s
   ∨ r.1 = false
     ∧ ∀ sec' f' now', (check_authentication sec' f' now' r.2).1 = false)
  ∧ ∀ sec' f' now', (check_authentication sec' f' now' (logout_user s)).1 = false.
Proof.
  intros r. split; [| done]. subst r. unfold check_authentication.
  destruct (default false (authenticated s)) eqn:Hauth; cbn [negb].
  2: { right. split; [done |]. intros sec' f' now'. cbn [snd]. by rewrite Hauth. }
  destruct (negb (truthy (state_user_email s))
            || negb (truthy (state_session_token s))) eqn:Hmissing.
  { right. split; [done |]. intros sec' f' now'. cbn [snd].
    by rewrite Hauth, Hmissing. }
  destruct (is_user_invited sec f _); cbn [negb]; [| by right].
  destruct (verify_session_token sec now _ _); cbn [negb]; [by left | by right].
Qed.

End SignIn.

Section SignInWitness.

Lemma signed_in_session_is_checked_witness :
  let issued := Calendar.mk_datetime (Calendar.mk_date 2025 1 15) 10 30 0 123456 in
  let now := Calendar.mk_datetime (Calendar.mk_date 2025 1 16) 10 30 0 0 in
  let env := mk_sign_in_env 1736937000123456 issued issued issued Committed in
  let sec := mk_secrets None None (Some [("ann@x.com", "Ann")]) in
  let w := mk_world Absent ∅ ∅ (mk_sink 0 []) in
  let no_session :=
    mk_session_state None None None None None None None None None None None in
  let r := show_authentication_page (H := cpython) (H0 := key_order) env sec
             Absent "Ann@X.com" true no_session w in
  r.1.1 = Rerun
  ∧ check_authentication (H := cpython) sec Absent now r.1.2 = (true, r.1.2).
Proof.
  intros issued now env sec w no_session r.
  assert (Hgranted : r.1.1 = Rerun) by (by vm_compute).
  split; [exact Hgranted |].
  apply (signed_in_session_is_checked (H := cpython) (H0 := key_order) env sec
           Absent "Ann@X.com" no_session
           w now Hgranted).
  - repeat split; by vm_compute.
  - by vm_compute.
  - by vm_compute.
Defined.

End SignInWitness.

(** ** Session set-up and user directories *)

Section UserDirectories.

Implicit Types (s : session_state) (a : audit_sink) (id : string).

Local Abbreviation chars := list_ascii_of_string.

Lemma sub_unsafe_safe id : Forall (λ c, safe_char c = true) (chars (sub_unsafe id)).
Proof.
  induction id as [| c id IH]; [by apply Forall_nil |]. simpl.
  apply Forall_cons. split; [| done]. by destruct (safe_char c) eqn:Hc.
Qed.

Lemma length_sub_unsafe id : String.length (sub_unsafe id) = String.length id.
Proof. induction id as [| c id IH]; [done |]. simpl. by rewrite IH. Qed.

Lemma sub_char_dot (c : ascii) :
  (if safe_char c then c else "_"%char) = "."%char ↔ c = "."%char.
Proof.
  split; [| by intros ->].
  by destruct (safe_char c) eqn:Hc.
Qed.

Lemma dot_test_sub {A} (c : ascii) (x y : A) :
  (if ascii_dec "." (if safe_char c then c else "_"%char) then x else y)
  = (if ascii_dec "." c then x else y).
Proof.
  destruct (ascii_dec "." (if safe_char c then c else "_"%char)) as [Heq | Hne],
    (ascii_dec "." c) as [Heq' | Hne']; try done.
  - symmetry in Heq. apply (proj1 (sub_char_dot c)) in Heq. by destruct Hne'.
  - subst c. by destruct Hne.
Qed.

Lemma prefix_dots_sub id :
  String.prefix ".." (sub_unsafe id) = String.prefix ".." id.
Proof.
  destruct id as [| c1 [| c2 id]]; [done | |];
    cbn [String.prefix sub_unsafe]; rewrite ?dot_test_sub; [done |].
  destruct (ascii_dec "." c1); [| done]. destruct (ascii_dec "." c2); [| done].
  by destruct id.
Qed.

Lemma contains_dots_sub id :
  contains ".." (sub_unsafe id) = contains ".." id.
Proof.
  induction id as [| c id IH]; [done |].
  change (sub_unsafe (String c id))
    with (String (if safe_char c then c else "_"%char) (sub_unsafe id)).
  cbn [contains]. rewrite IH. f_equal.
  apply (prefix_dots_sub (String c id)).
Qed.

Lemma contains_absent (d : ascii) (rest hay : string) :
  d ∉ chars hay → contains (String d rest) hay = false.
Proof.
  induction hay as [| c hay IH]; [done |]. simpl. intros Hnot.
  rewrite IH by (intros ?; apply Hnot, elem_of_cons; by right).
  destruct (ascii_dec d c) as [-> |]; [| done].
  destruct Hnot. apply elem_of_cons. by left.
Qed.

Lemma safe_chars_absent (d : ascii) id :
  safe_char d = false → d ∉ chars (sub_unsafe id).
Proof.
  intros Hd Hin.
  apply (proj1 (Forall_forall _ _) (sub_unsafe_safe id)) in Hin. congruence.
Qed.

Lemma directories_unfold (log_now : Calendar.datetime) (makedirs : bool) s id a :
  get_user_directories log_now makedirs s id a
  = if default false (authenticated s)
       && negb (String.eqb id (safe_user_id (default "" (state_user_email s))))
    then (inl UnauthorizedAccess, a)
    else if contains ".." id then (inl InvalidUserId, a)
    else if negb makedirs then (inl MakedirsFailed, a)
    else
      (inr ("./faiss_db_multiuser/user_" +:+ sub_unsafe id,
            "./uploads/user_" +:+ sub_unsafe id),
       log_directory_access log_now (default "unknown" (state_user_email s))
         ("./faiss_db_multiuser/user_" +:+ sub_unsafe id) a).
Proof.
  unfold get_user_directories. destruct (_ && _); [done |]. cbv zeta.
  rewrite contains_dots_sub.
  rewrite (contains_absent "/" "" (sub_unsafe id)) by (by apply safe_chars_absent).
  unfold backslash.
  rewrite (contains_absent (ascii_of_nat 92) "" (sub_unsafe id))
    by (by apply safe_chars_absent).
  rewrite !orb_false_r. destruct (contains ".." id); [done |].
  by destruct makedirs.
Qed.

(** X19: with an authenticated session [get_user_directories] serves the
    identifier made from the session's address and no other; it refuses an
    identifier as invalid exactly when the identifier holds two dots in a
    row (the tests for a slash and a backslash can never fire, the
    substitution has removed both); the directories it returns are the two
    fixed roots followed by [user_] and the identifier with every character
    other than a letter, a digit, [_], [.] and [-] replaced by [_], one for
    one; a call that fails writes no audit record. *)
Theorem user_directories_are_guarded (log_now : Calendar.datetime)
    (makedirs : bool) s id a :
  let r := get_user_directories log_now makedirs s id a in
  let own := safe_user_id (default "" (state_user_email s)) in
  let signed := default false (authenticated s) in
  (r.1 = inl UnauthorizedAccess ↔ signed = true ∧ id ≠ own)
  ∧ (r.1 = inl InvalidUserId
     ↔ (signed = true → id = own) ∧ contains ".." id = true)
  ∧ (∀ persist uploads,
       r.1 = inr (persist, uploads) →
       persist = "./faiss_db_multiuser/user_" +:+ sub_unsafe id
       ∧ uploads = "./uploads/user_" +:+ sub_unsafe id
       ∧ String.length (sub_unsafe id) = String.length id
       ∧ Forall (λ c, safe_char c = true) (chars (sub_unsafe id))
       ∧ contains ".." (sub_unsafe id) = false
       ∧ handlers r.2 = S (handlers a))
  ∧ (∀ e, r.1 = inl e → r.2 = a).
Proof.
  intros r own signed. subst r. rewrite directories_unfold. fold own signed.
  destruct signed eqn:Hsigned; cbn [andb].
  - destruct (String.eqb_spec id own) as [Hown | Hother]; cbn [negb].
    + destruct (contains ".." id) eqn:Hdots; [| destruct makedirs]; cbn [negb fst snd];
        (split; [split; [done | by intros [_ ?]] |]);
        (split; [split; [try done; by intros _ | try done; by intros [_ ?]] |]);
        (split; [| try done; by intros e [= <-]]); try done.
      intros persist uploads [= <- <-].
      split_and!; try done; [apply length_sub_unsafe | apply sub_unsafe_safe |].
      by rewrite contains_dots_sub.
    + cbn [fst snd]. split; [done |]. split; [| done].
      split; [done |]. intros [Hid _]. by destruct Hother; apply Hid.
  - destruct (contains ".." id) eqn:Hdots; [| destruct makedirs]; cbn [negb fst snd];
      (split; [split; [done | by intros [? _]] |]);
      (split; [split; [try done; by intros _ | try done; by intros [_ ?]] |]);
      (split; [| try done; by intros e [= <-]]); try done.
    intros persist uploads [= <- <-].
    split_and!; try done; [apply length_sub_unsafe | apply sub_unsafe_safe |].
    by rewrite contains_dots_sub.
Qed.

Lemma replace_char_keeps_out (d c : ascii) (by_s x : string) :
  d ∉ chars by_s → (d ∉ chars x ∨ d = c) → d ∉ chars (replace_char c by_s x).
Proof.
  intros Hby Hx. induction x as [| y x IH]; [by intros ?%elem_of_nil |].
  simpl. destruct (Ascii.eqb_spec y c) as [-> | Hne].
  - rewrite chars_append, elem_of_app. intros [? | Hin]; [done |].
    revert Hin. apply IH. destruct Hx as [Hx | ?]; [| by right].
    left. intros ?. apply Hx. simpl. apply elem_of_cons. by right.
  - simpl. intros [-> | Hin]%elem_of_cons.
    + destruct Hx as [Hx | ?]; [| done]. apply Hx. simpl. apply elem_of_cons. by left.
    + revert Hin. apply IH. destruct Hx as [Hx | ?]; [| by right].
      left. intros ?. apply Hx. simpl. apply elem_of_cons. by right.
Qed.

Lemma safe_user_id_no_dot (email : string) :
  "."%char ∉ chars (safe_user_id email).
Proof.
  assert (Habsent : ∀ l : list ascii, Forall (λ c, "."%char ≠ c) l → "."%char ∉ l).
  { intros l Hl Hin. by apply (proj1 (Forall_forall _ _) Hl) in Hin. }
  unfold safe_user_id.
  apply replace_char_keeps_out; [apply Habsent; simpl; by repeat constructor |].
  left. apply replace_char_keeps_out; [| by right].
  apply Habsent. simpl. by repeat constructor.
Qed.

Lemma own_directories (log_now : Calendar.datetime) s a :
  let own := safe_user_id (default "" (state_user_email s)) in
  get_user_directories log_now true s own a
  = (inr ("./faiss_db_multiuser/user_" +:+ sub_unsafe own,
          "./uploads/user_" +:+ sub_unsafe own),
     log_directory_access log_now (default "unknown" (state_user_email s))
       ("./faiss_db_multiuser/user_" +:+ sub_unsafe own) a).
Proof.
  intros own. rewrite directories_unfold. fold own.
  rewrite String.eqb_refl, andb_false_r.
  by rewrite (contains_absent "." "." own) by apply safe_user_id_no_dot.
Qed.

Lemma initialize_keeps_user_id (now : Calendar.datetime) (uuid4 : string) s :
  default false (authenticated s) = true →
  truthy (state_user_email s) = true →
  let s' := initialize_user_session now uuid4 s in
  authenticated s' = authenticated s
  ∧ state_user_email s' = state_user_email s
  ∧ user_id s'
    = Some (default (safe_user_id (default "" (state_user_email s))) (user_id s)).
Proof.
  intros Hauth Hemail. unfold initialize_user_session.
  rewrite Hauth, Hemail. cbn [andb].
  destruct (user_id s) as [kept |] eqn:Hkept; cbv zeta;
    cbn [authenticated state_user_email user_id]; by rewrite ?Hkept.
Qed.

(** X20: in an authenticated session that has no [user_id] yet,
    [initialize_user_session] sets it to the identifier made from the
    session's address, and [get_user_directories] then serves this
    identifier (when the directories can be made): it is never refused as
    foreign or invalid, whatever the address.  A [user_id] that is already
    in the session is kept as it is. *)
Theorem fresh_session_reaches_own_directories (now log_now : Calendar.datetime)
    (uuid4 : string) s a :
  default false (authenticated s) = true →
  truthy (state_user_email s) = true →
  let s' := initialize_user_session now uuid4 s in
  let own := safe_user_id (default "" (state_user_email s)) in
  (user_id s = None →
   user_id s' = Some own
   ∧ (get_user_directories log_now true s' own a).1
     = inr ("./faiss_db_multiuser/user_" +:+ sub_unsafe own,
            "./uploads/user_" +:+ sub_unsafe own))
  ∧ (∀ kept, user_id s = Some kept → user_id s' = Some kept).
Proof.
  intros Hauth Hemail s' own.
  destruct (initialize_keeps_user_id now uuid4 s Hauth Hemail)
    as (_ & Hsame & Hid). fold s' own in Hsame, Hid.
  split.
  - intros Hnone. rewrite Hnone in Hid. split; [done |].
    pose proof (own_directories log_now s' a) as Hown. cbv zeta in Hown.
    rewrite Hsame in Hown. fold own in Hown. by rewrite Hown.
  - intros kept Hkept. by rewrite Hkept in Hid.
Qed.

End UserDirectories.

Section SessionFlow.

Context `{Runtime} `{DictOrder}.

(** X21: [logout_user] leaves [user_id] in the session and a later sign-in
    does not replace it.  When a first address signs in on a session
    without [user_id], the session is set up, the user logs out and a
    second address signs in, the session set up again still carries the
    identifier of the first address; if the second address makes another
    identifier, [get_user_directories] refuses the session's [user_id] as
    unauthorized. *)
Theorem next_sign_in_keeps_first_user_id (env1 env2 : sign_in_env)
    (sec : secrets) (f : file invitation_doc) (first second : string)
    (s : session_state) (w : world) (now1 now2 log_now : Calendar.datetime)
    (uuid1 uuid2 : string) (makedirs : bool) (a : audit_sink) :
  user_id s = None →
  let r1 := show_authentication_page env1 sec f first true s w in
  r1.1.1 = Rerun →
  let s1 := logout_user (initialize_user_session now1 uuid1 r1.1.2) in
  let r2 := show_authentication_page env2 sec f second true s1 r1.2 in
  r2.1.1 = Rerun →
  let s2 := initialize_user_session now2 uuid2 r2.1.2 in
  user_id s1 = Some (safe_user_id (lower first))
  ∧ state_user_email s2 = Some (lower second)
  ∧ user_id s2 = Some (safe_user_id (lower first))
  ∧ (safe_user_id (lower second) ≠ safe_user_id (lower first) →
     get_user_directories log_now makedirs s2 (safe_user_id (lower first)) a
     = (inl UnauthorizedAccess, a)).
Proof.
  intros Hnone r1 Hfirst s1 r2 Hsecond s2.
  destruct (page_outcome env1 sec f first s w) as (_ & Hiff1 & _ & Hs1 & _).
  fold r1 in Hiff1, Hs1.
  destruct (Hs1 Hfirst) as (info1 & _ & Hr1).
  destruct (proj1 Hiff1 Hfirst) as (Hne1 & _).
  destruct (page_outcome env2 sec f second s1 r1.2) as (_ & Hiff2 & _ & Hs2 & _).
  fold r2 in Hiff2, Hs2.
  destruct (Hs2 Hsecond) as (info2 & _ & Hr2).
  destruct (proj1 Hiff2 Hsecond) as (Hne2 & _).
  assert (Hlower : ∀ x, x ≠ "" → truthy (Some (lower x)) = true).
  { intros [| c x] Hx; [done | by simpl]. }
  assert (Hauth1 : default false (authenticated r1.1.2) = true)
    by (by rewrite Hr1).
  assert (Hemail1 : truthy (state_user_email r1.1.2) = true)
    by (rewrite Hr1; by apply Hlower).
  destruct (initialize_keeps_user_id now1 uuid1 r1.1.2 Hauth1 Hemail1)
    as (_ & _ & Hinit1).
  assert (Hid1 : user_id s1 = Some (safe_user_id (lower first))).
  { subst s1. cbn [logout_user user_id]. rewrite Hinit1, Hr1.
    cbn [signed_in user_id state_user_email]. by rewrite Hnone. }
  assert (Hauth2 : default false (authenticated r2.1.2) = true)
    by (by rewrite Hr2).
  assert (Hemail2 : truthy (state_user_email r2.1.2) = true)
    by (rewrite Hr2; by apply Hlower).
  destruct (initialize_keeps_user_id now2 uuid2 r2.1.2 Hauth2 Hemail2)
    as (Hsigned & Haddress & Hinit2).
  fold s2 in Hsigned, Haddress, Hinit2.
  rewrite Hr2 in Hsigned, Haddress, Hinit2.
  cbn [signed_in user_id state_user_email authenticated] in Hsigned, Haddress, Hinit2.
  rewrite Hid1 in Hinit2.
  split; [done |]. split; [done |]. split; [done |].
  intros Hother. rewrite directories_unfold, Hsigned, Haddress.
  unfold default. cbn [from_option id andb].
  destruct (String.eqb_spec (safe_user_id (lower first))
              (safe_user_id (lower second))) as [Heq | _]; [| done].
  by destruct Hother.
Qed.

End SessionFlow.

Section SessionFlowWitness.

Let at_half_past : Calendar.datetime :=
  Calendar.mk_datetime (Calendar.mk_date 2025 1 15) 10 30 0 123456.

Let no_session : session_state :=
  mk_session_state None None None None None None None None None None None.

Lemma fresh_session_reaches_own_directories_witness :
  let s := mk_session_state (Some true) (Some "ann.lee+jobs@x.com") None
             (Some "t") None None None None None None None in
  let s' := initialize_user_session at_half_past "0c9b2f6e-1111" s in
  user_id s' = Some "ann_lee_plus_jobs_at_x_com"
  ∧ (get_user_directories at_half_past true s' "ann_lee_plus_jobs_at_x_com"
       (mk_sink 0 [])).1
    = inr ("./faiss_db_multiuser/user_ann_lee_plus_jobs_at_x_com",
           "./uploads/user_ann_lee_plus_jobs_at_x_com").
Proof.
  intros s s'.
  apply (proj1 (fresh_session_reaches_own_directories at_half_past at_half_past
                  "0c9b2f6e-1111" s (mk_sink 0 []) eq_refl eq_refl)).
  reflexivity.
Defined.

Lemma next_sign_in_keeps_first_user_id_witness :
  let env := mk_sign_in_env 1736937000123456 at_half_past at_half_past
               at_half_past Committed in
  let sec := mk_secrets None None (Some [("ann@x.com", "Ann"); ("bob@x.com", "Bob")]) in
  let w := mk_world Absent ∅ ∅ (mk_sink 0 []) in
  let r1 := show_authentication_page (H := cpython) (H0 := key_order) env sec
              Absent "ann@x.com" true no_session w in
  let s1 := logout_user (initialize_user_session at_half_past "0c9b2f6e" r1.1.2) in
  let r2 := show_authentication_page (H := cpython) (H0 := key_order) env sec
              Absent "bob@x.com" true s1 r1.2 in
  let s2 := initialize_user_session at_half_past "7d1e4a90" r2.1.2 in
  state_user_email s2 = Some "bob@x.com"
  ∧ user_id s2 = Some "ann_at_x_com"
  ∧ get_user_directories at_half_past true s2 "ann_at_x_com" (mk_sink 0 [])
    = (inl UnauthorizedAccess, mk_sink 0 []).
Proof.
  intros env sec w r1 s1 r2 s2.
  assert (Hfirst : r1.1.1 = Rerun) by (by vm_compute).
  assert (Hsecond : r2.1.1 = Rerun) by (by vm_compute).
  destruct (next_sign_in_keeps_first_user_id (H := cpython) (H0 := key_order)
              env env sec Absent "ann@x.com" "bob@x.com" no_session w
              at_half_past at_half_past at_half_past "0c9b2f6e" "7d1e4a90" true
              (mk_sink 0 []) eq_refl Hfirst Hsecond)
    as (_ & Hemail & Hid & Hrefused).
  split; [exact Hemail |]. split; [exact Hid |].
  apply Hrefused. by vm_compute.
Defined.

End SessionFlowWitness.
